(** * Blenko SKU Generator: the SKU derivation and the history log

    A shallow embedding of [blenko-sku-generator.user.js]:
    [generateSKU], [formatSKU] and [saveToHistory], together with the
    platform functions they call ([String.prototype.trim], [TextEncoder],
    [crypto.subtle.digest('SHA-256', _)], [JSON], [GM_getValue] and
    [GM_setValue]).

    JavaScript strings are sequences of UTF-16 code units, modelled as
    [list N]; a [Uint8Array] is a [list N] of bytes. *)

From Stdlib Require Import NArith ZArith List Ascii String Lia Bool.
From stdpp Require Import base list strings gmap.

Local Open Scope N_scope.

(* ===================================================================== *)
(** ** SHA-256 (FIPS 180-4), the digest behind [crypto.subtle.digest] *)
(* ===================================================================== *)

Module SHA256.

Definition wrap32 (x : N) : N := x mod 2 ^ 32.
Definition add32 (x y : N) : N := wrap32 (x + y).

Definition shr (n x : N) : N := N.shiftr x n.
Definition rotr (n x : N) : N :=
  N.lor (N.shiftr x n) (wrap32 (N.shiftl x (32 - n))).
Definition not32 (x : N) : N := N.lxor x 0xffffffff.

Definition Ch (x y z : N) : N := N.lxor (N.land x y) (N.land (not32 x) z).
Definition Maj (x y z : N) : N :=
  N.lxor (N.lxor (N.land x y) (N.land x z)) (N.land y z).
Definition Sigma0 (x : N) : N := N.lxor (N.lxor (rotr 2 x) (rotr 13 x)) (rotr 22 x).
Definition Sigma1 (x : N) : N := N.lxor (N.lxor (rotr 6 x) (rotr 11 x)) (rotr 25 x).
Definition sigma0 (x : N) : N := N.lxor (N.lxor (rotr 7 x) (rotr 18 x)) (shr 3 x).
Definition sigma1 (x : N) : N := N.lxor (N.lxor (rotr 17 x) (rotr 19 x)) (shr 10 x).

(** Constants (sections 4.2.2 and 5.3.3). [K] holds the first 32 bits of the
    fractional parts of the cube roots of the first 64 primes, the initial
    hash value those of the square roots of the first 8 primes. Both are
    computed from that description: [iroot k x] is the integer part of the
    [k]-th root of [x], found bit by bit from bit [bits - 1] down. *)
Fixpoint iroot_from (k x : N) (bits : nat) (r : N) : N :=
  match bits with
  | O => r
  | S b =>
      let r' := r + 2 ^ N.of_nat b in
      if r' ^ k <=? x then iroot_from k x b r' else iroot_from k x b r
  end.

Definition iroot (k x : N) : N := iroot_from k x 40 0.

Definition is_prime (n : N) : bool :=
  (2 <=? n)
  && forallb (fun d : nat => negb (n mod N.of_nat d =? 0))
             (seq 2 (N.to_nat n - 2)).

Definition primes : list N :=
  filter (fun n => is_prime n = true) (map N.of_nat (seq 0 312)).

(** The first 32 bits of the fractional part of the [k]-th root of [p]. *)
Definition frac_root (k p : N) : N := wrap32 (iroot k (p * 2 ^ (32 * k))).

Definition K : list N := Eval vm_compute in map (frac_root 3) (take 64 primes).

(** The eight working variables, also the shape of a hash value. *)
Record regs : Type := Regs {
  ra : N; rb : N; rc : N; rd : N; re : N; rf : N; rg : N; rh : N }.

Definition H0 : regs :=
  Eval vm_compute in
  match map (frac_root 2) (take 8 primes) with
  | [a; b; c; d; e; f; g; h] => Regs a b c d e f g h
  | _ => Regs 0 0 0 0 0 0 0 0
  end.

(** Padding (section 5.1.1): a 1 bit, zero bits up to 448 mod 512, then the
    bit length as a 64-bit big-endian number. *)
Definition be_bytes (n : nat) (x : N) : list N :=
  map (fun i : nat => N.land (N.shiftr x (8 * N.of_nat i)) 255) (rev (seq 0 n)).

Definition zero_pad (len : N) : nat := N.to_nat ((119 - len mod 64) mod 64).

Definition pad (msg : list N) : list N :=
  let len := N.of_nat (length msg) in
  msg ++ [0x80] ++ replicate (zero_pad len) 0 ++ be_bytes 8 (8 * len).

(** Big-endian 32-bit words of a block. *)
Fixpoint words (bs : list N) : list N :=
  match bs with
  | b0 :: b1 :: b2 :: b3 :: rest =>
      N.lor (N.lor (N.lor (N.shiftl b0 24) (N.shiftl b1 16)) (N.shiftl b2 8)) b3
      :: words rest
  | _ => []
  end.

(** Message schedule (section 6.2.2 step 1), kept newest word first:
    [w] holds W(t-1), W(t-2), ... *)
Definition next_w (w : list N) : N :=
  add32 (add32 (add32 (sigma1 (nth 1 w 0)) (nth 6 w 0)) (sigma0 (nth 14 w 0)))
        (nth 15 w 0).

Fixpoint extend (n : nat) (w : list N) : list N :=
  match n with
  | O => w
  | S n' => extend n' (next_w w :: w)
  end.

Definition schedule (block : list N) : list N :=
  rev (extend 48 (rev (words block))).

(** One round (section 6.2.2 step 3). *)
Definition round (s : regs) (kw : N * N) : regs :=
  let t1 := add32 (add32 (add32 (add32 (rh s) (Sigma1 (re s)))
                                (Ch (re s) (rf s) (rg s))) (fst kw)) (snd kw) in
  let t2 := add32 (Sigma0 (ra s)) (Maj (ra s) (rb s) (rc s)) in
  Regs (add32 t1 t2) (ra s) (rb s) (rc s) (add32 (rd s) t1) (re s) (rf s) (rg s).

Definition compress (h : regs) (block : list N) : regs :=
  let s := fold_left round (combine K (schedule block)) h in
  Regs (add32 (ra h) (ra s)) (add32 (rb h) (rb s))
       (add32 (rc h) (rc s)) (add32 (rd h) (rd s))
       (add32 (re h) (re s)) (add32 (rf h) (rf s))
       (add32 (rg h) (rg s)) (add32 (rh h) (rh s)).

(** The padded message is hashed 64 bytes at a time. *)
Fixpoint blocks (n : nat) (h : regs) (bs : list N) : regs :=
  match n with
  | O => h
  | S n' => blocks n' (compress h (take 64 bs)) (drop 64 bs)
  end.

Definition output (h : regs) : list N :=
  be_bytes 4 (ra h) ++ be_bytes 4 (rb h) ++ be_bytes 4 (rc h) ++ be_bytes 4 (rd h)
  ++ be_bytes 4 (re h) ++ be_bytes 4 (rf h) ++ be_bytes 4 (rg h) ++ be_bytes 4 (rh h).

Definition digest (msg : list N) : list N :=
  let p := pad msg in
  output (blocks (length p / 64)%nat H0 p).

End SHA256.

(* ===================================================================== *)
(** ** JavaScript values and strings *)
(* ===================================================================== *)

(** A string is its sequence of UTF-16 code units. *)
Abbreviation JsString := (list N).

(** The code unit of an ASCII character. *)
Definition chr (a : ascii) : N := N_of_ascii a.

(** A Rocq string literal as a JavaScript string (ASCII only). *)
Definition js (s : string) : JsString :=
  map chr (list_ascii_of_string s).

(** Numbers are kept only as far as truthiness needs them: a finite number
    is [mantissa * 2 ^ exponent]. *)
Inductive JsNumber : Type :=
  | NaN
  | Infinity (negative : bool)
  | Finite (mantissa exponent : Z).

Inductive JsValue : Type :=
  | JUndefined
  | JNull
  | JBoolean (b : bool)
  | JNumber (x : JsNumber)
  | JBigInt (z : Z)
  | JSymbol (description : JsString)
  | JString (s : JsString)
  | JObject (callable : bool).

Definition typeof (v : JsValue) : string :=
  match v with
  | JUndefined => "undefined"
  | JNull => "object"
  | JBoolean _ => "boolean"
  | JNumber _ => "number"
  | JBigInt _ => "bigint"
  | JSymbol _ => "symbol"
  | JString _ => "string"
  | JObject callable => if callable then "function" else "object"
  end.

(** ToBoolean. *)
Definition truthy (v : JsValue) : bool :=
  match v with
  | JUndefined | JNull => false
  | JBoolean b => b
  | JNumber NaN => false
  | JNumber (Infinity _) => true
  | JNumber (Finite m _) => negb (m =? 0)%Z
  | JBigInt z => negb (z =? 0)%Z
  | JSymbol _ => true
  | JString s => negb (length s =? 0)%nat
  | JObject _ => true
  end.

(** The code points [trim] strips: WhiteSpace and LineTerminator of
    ECMA-262, all of them in the basic plane. *)
Definition isWhiteSpace (c : N) : bool :=
  (c =? 0x09) || (c =? 0x0A) || (c =? 0x0B) || (c =? 0x0C) || (c =? 0x0D)
  || (c =? 0x20) || (c =? 0xA0) || (c =? 0x1680)
  || ((0x2000 <=? c) && (c <=? 0x200A))
  || (c =? 0x2028) || (c =? 0x2029) || (c =? 0x202F) || (c =? 0x205F)
  || (c =? 0x3000) || (c =? 0xFEFF).

Fixpoint trimStart (s : JsString) : JsString :=
  match s with
  | [] => []
  | c :: rest => if isWhiteSpace c then trimStart rest else s
  end.

Definition trimEnd (s : JsString) : JsString := rev (trimStart (rev s)).

Definition trim (s : JsString) : JsString := trimEnd (trimStart s).

(** [String.prototype.substring] on indices that are already integers. *)
Definition substring (s : JsString) (from to : nat) : JsString :=
  let len := length s in
  let a := Nat.min from len in
  let b := Nat.min to len in
  take (Nat.max a b - Nat.min a b) (drop (Nat.min a b) s).

(** [s[i]]: the one-unit string at index [i], or [undefined]. *)
Definition charAtIndex (s : JsString) (i : N) : option N := s !! N.to_nat i.

Definition isHighSurrogate (c : N) : bool := (0xD800 <=? c) && (c <=? 0xDBFF).
Definition isLowSurrogate (c : N) : bool := (0xDC00 <=? c) && (c <=? 0xDFFF).

(** The UTF-8 bytes of one code point. *)
Definition utf8 (cp : N) : list N :=
  if cp <? 0x80 then [cp]
  else if cp <? 0x800 then
    [N.lor 0xC0 (N.shiftr cp 6); N.lor 0x80 (N.land cp 0x3F)]
  else if cp <? 0x10000 then
    [N.lor 0xE0 (N.shiftr cp 12); N.lor 0x80 (N.land (N.shiftr cp 6) 0x3F);
     N.lor 0x80 (N.land cp 0x3F)]
  else
    [N.lor 0xF0 (N.shiftr cp 18); N.lor 0x80 (N.land (N.shiftr cp 12) 0x3F);
     N.lor 0x80 (N.land (N.shiftr cp 6) 0x3F); N.lor 0x80 (N.land cp 0x3F)].

(** [TextEncoder.prototype.encode]: UTF-8, a surrogate pair giving one
    four-byte sequence and a lone surrogate encoded as U+FFFD. *)
Fixpoint TextEncoder_encode (s : JsString) : list N :=
  match s with
  | [] => []
  | c :: rest =>
      if isHighSurrogate c then
        match rest with
        | d :: rest' =>
            if isLowSurrogate d then
              utf8 (0x10000 + N.shiftl (c - 0xD800) 10 + (d - 0xDC00))
              ++ TextEncoder_encode rest'
            else utf8 0xFFFD ++ TextEncoder_encode rest
        | [] => utf8 0xFFFD
        end
      else if isLowSurrogate c then utf8 0xFFFD ++ TextEncoder_encode rest
      else utf8 c ++ TextEncoder_encode rest
  end.

(** [Array.prototype.join('')] on an array whose slots are one-unit strings,
    [undefined] or holes: the last two contribute the empty string. *)
Definition join (a : list (option N)) : JsString :=
  flat_map (fun slot => match slot with Some c => [c] | None => [] end) a.

(** [a[i] = v]: in range the slot is overwritten; past the end a JavaScript
    array grows, the slots in between staying holes. *)
Definition array_set (a : list (option N)) (i : nat) (v : option N)
  : list (option N) :=
  if (i <? length a)%nat then <[i := v]> a
  else a ++ replicate (i - length a) None ++ [v].

(** [s.replace(/O/g, '0')]: every code unit 'O' becomes '0'. *)
Fixpoint replace_O (s : JsString) : JsString :=
  match s with
  | [] => []
  | c :: rest => (if c =? chr "O" then chr "0" else c) :: replace_O rest
  end.

(* ===================================================================== *)
(** ** The script's environment: userscript storage, clock, exceptions *)
(* ===================================================================== *)

(** What the script can observe and change outside its own variables: the
    values kept by [GM_setValue], and the clock, given as the text
    [new Date().toISOString()] returns at this instant. *)
Record World : Type := mkWorld {
  gm_storage : gmap string JsString;
  clock_iso : JsString
}.

Inductive JsError : Type :=
  | TypeError
  | SyntaxError
  | NotSupportedError.

Inductive outcome (A : Type) : Type :=
  | Returned (a : A)
  | Thrown (e : JsError).
Arguments Returned {A} a.
Arguments Thrown {A} e.

(** A computation of the script: from a world to an outcome and the world
    it leaves. An [async] function is run to the settlement of its promise. *)
Definition M (A : Type) : Type := World -> outcome A * World.

#[global] Instance M_ret : MRet M := fun A a w => (Returned a, w).
#[global] Instance M_bind : MBind M := fun A B f m w =>
  match m w with
  | (Returned a, w') => f a w'
  | (Thrown e, w') => (Thrown e, w')
  end.

Definition throw {A : Type} (e : JsError) : M A := fun w => (Thrown e, w).

Definition GM_getValue (key : string) (defaultValue : JsString) : M JsString :=
  fun w => (Returned (default defaultValue (gm_storage w !! key)), w).

Definition GM_setValue (key : string) (value : JsString) : M unit :=
  fun w => (Returned tt, mkWorld (<[key := value]> (gm_storage w)) (clock_iso w)).

Definition Date_toISOString_now : M JsString :=
  fun w => (Returned (clock_iso w), w).

(** [crypto.subtle.digest(algorithm, data)], awaited. *)
Definition crypto_subtle_digest (algorithm : string) (data : list N) : M (list N) :=
  if String.eqb algorithm "SHA-256" then mret (SHA256.digest data)
  else throw NotSupportedError.

(* ===================================================================== *)
(** ** SKU generation *)
(* ===================================================================== *)

Definition CHARSET : JsString := js "ABCDEFGHIJKLMNOPQRSTUVWXYZ0123456789".
Definition CHARSET_LENGTH : N := N.of_nat (length CHARSET).
Definition SKU_LENGTH : nat := 12.

Definition formatSKU (sku : JsString) : JsString :=
  if negb (length sku =? SKU_LENGTH)%nat then sku
  else substring sku 0 4 ++ js "-" ++ substring sku 4 8 ++ js "-"
       ++ substring sku 8 12.

(** The [for] loop of [generateSKU]: [bytes] is what remains of [hashArray]
    from index [i] on, so [i < hashArray.length] is [bytes] being non-empty. *)
Fixpoint sample_loop (bytes : list N) (resultIndex : nat)
    (result : list (option N)) : nat * list (option N) :=
  match bytes with
  | [] => (resultIndex, result)
  | byte :: rest =>
      if (resultIndex <? SKU_LENGTH)%nat then
        let result :=
          array_set result resultIndex
            (charAtIndex CHARSET ((byte / CHARSET_LENGTH) mod CHARSET_LENGTH)) in
        let resultIndex := S resultIndex in
        if (resultIndex <? SKU_LENGTH)%nat then
          let result :=
            array_set result resultIndex
              (charAtIndex CHARSET (byte mod CHARSET_LENGTH)) in
          sample_loop rest (S resultIndex) result
        else sample_loop rest resultIndex result
      else (resultIndex, result)
  end.

(** [new Array(SKU_LENGTH)] filled by the loop. *)
Definition sample (hashArray : list N) : list (option N) :=
  snd (sample_loop hashArray 0 (replicate SKU_LENGTH None)).

Definition generateSKU (productTitle : JsValue) : M (option JsString) :=
  if negb (truthy productTitle) || negb (String.eqb (typeof productTitle) "string")
  then mret None
  else
    match productTitle with
    | JString s =>
        let productTitle := trim s in
        if (length productTitle =? 0)%nat then mret None
        else
          let data := TextEncoder_encode productTitle in
          hashArray ← crypto_subtle_digest "SHA-256" data;
          let result := sample hashArray in
          let sku := replace_O (join result) in
          mret (Some (formatSKU sku))
    | _ => throw TypeError
    end.

(** A world to run examples in: empty storage. *)
Definition emptyWorld : World := mkWorld ∅ (js "2024-01-01T00:00:00.000Z").

(** *** The sampling step as the specification words it

    Consume the digest byte by byte; for each byte emit the alphabet symbol
    at index [floor(byte / 36) mod 36], then, if output slots remain, the
    symbol at index [byte mod 36]; stop once 12 symbols are out. *)
Definition symbol (i : N) : N := nth (N.to_nat i) CHARSET 0.

Fixpoint spec_emit (digest : list N) (out : JsString) : JsString :=
  match digest with
  | [] => out
  | byte :: rest =>
      if (length out <? 12)%nat then
        let out := out ++ [symbol ((byte / 36) mod 36)] in
        let out := if (length out <? 12)%nat
                   then out ++ [symbol (byte mod 36)] else out in
        spec_emit rest out
      else out
  end.

(** The array of the loop after [out] has been written: the symbols so far,
    then holes. *)
Definition filled (out : JsString) : list (option N) :=
  map Some out ++ replicate (SKU_LENGTH - length out) None.

(** The two symbols one digest byte gives. *)
Definition emitted (byte : N) : JsString :=
  [symbol ((byte / 36) mod 36); symbol (byte mod 36)].

(** The symbols a finished SKU may hold: [A-NP-Z0-9]. *)
Definition isSkuSymbol (c : N) : bool :=
  ((chr "A" <=? c) && (c <=? chr "N"))
  || ((chr "P" <=? c) && (c <=? chr "Z"))
  || ((chr "0" <=? c) && (c <=? chr "9")).

(** The shape XXXX-XXXX-XXXX. *)
Definition matchesSkuPattern (s : JsString) : bool :=
  match s with
  | [a; b; c; d; h1; e; f; g; h; h2; i; j; k; l] =>
      forallb isSkuSymbol [a; b; c; d; e; f; g; h; i; j; k; l]
      && (h1 =? chr "-") && (h2 =? chr "-")
  | _ => false
  end.

(** Two sampled characters that are equal, or are the letter 'O' and the
    digit '0' in either order. *)
Definition sameUpToO (a b : N) : Prop :=
  a = b ∨ (a = chr "O" ∧ b = chr "0") ∨ (a = chr "0" ∧ b = chr "O").

(* ===================================================================== *)
(** ** JSON text and the history log *)
(* ===================================================================== *)

(** The values JSON text denotes. An object keeps its members in the order
    of their first appearance (the log has no integer-like keys, which a
    JavaScript object would move to the front). A number is kept as the
    literal it was read from: the script never makes one and never looks
    inside one. *)
#[local] Unset Elimination Schemes.
Inductive Json : Type :=
  | JsonNull
  | JsonBool (b : bool)
  | JsonNumber (literal : JsString)
  | JsonString (s : JsString)
  | JsonArray (elements : list Json)
  | JsonObject (members : list (JsString * Json)).
#[local] Set Elimination Schemes.

Definition dquote : N := 0x22.
Definition backslash : N := 0x5C.

(** *** [JSON.stringify] *)

Definition hexDigit (d : N) : N := nth (N.to_nat d) (js "0123456789abcdef") 0.

(** UnicodeEscape: [\uXXXX] with four lowercase hexadecimal digits. *)
Definition unicodeEscape (c : N) : JsString :=
  [backslash; chr "u"; hexDigit ((c / 4096) mod 16); hexDigit ((c / 256) mod 16);
   hexDigit ((c / 16) mod 16); hexDigit (c mod 16)].

(** One code unit that is not a surrogate, as QuoteJSONString writes it. *)
Definition quoteUnit (c : N) : JsString :=
  if c =? 0x08 then [backslash; chr "b"]
  else if c =? 0x09 then [backslash; chr "t"]
  else if c =? 0x0A then [backslash; chr "n"]
  else if c =? 0x0C then [backslash; chr "f"]
  else if c =? 0x0D then [backslash; chr "r"]
  else if c =? dquote then [backslash; dquote]
  else if c =? backslash then [backslash; backslash]
  else if c <? 0x20 then unicodeEscape c
  else [c].

(** The inside of a quoted string: a surrogate pair is written as it is, a
    lone surrogate as a [\uXXXX] escape. *)
Fixpoint quoteBody (s : JsString) : JsString :=
  match s with
  | [] => []
  | c :: rest =>
      if isHighSurrogate c then
        match rest with
        | d :: rest' =>
            if isLowSurrogate d then c :: d :: quoteBody rest'
            else unicodeEscape c ++ quoteBody rest
        | [] => unicodeEscape c
        end
      else if isLowSurrogate c then unicodeEscape c ++ quoteBody rest
      else quoteUnit c ++ quoteBody rest
  end.

Definition QuoteJSONString (s : JsString) : JsString :=
  dquote :: quoteBody s ++ [dquote].

Fixpoint commaSeparated (parts : list JsString) : JsString :=
  match parts with
  | [] => []
  | [p] => p
  | p :: more => p ++ chr "," :: commaSeparated more
  end.

Fixpoint JSON_stringify (v : Json) : JsString :=
  match v with
  | JsonNull => js "null"
  | JsonBool b => if b then js "true" else js "false"
  | JsonNumber literal => literal
  | JsonString s => QuoteJSONString s
  | JsonArray elements =>
      chr "[" :: commaSeparated (map JSON_stringify elements) ++ [chr "]"]
  | JsonObject members =>
      chr "{"
      :: commaSeparated
           (map (fun kv => QuoteJSONString (fst kv) ++ chr ":" :: JSON_stringify (snd kv))
                members)
      ++ [chr "}"]
  end.

(** *** [JSON.parse] *)

Definition isJsonWhiteSpace (c : N) : bool :=
  (c =? 0x20) || (c =? 0x09) || (c =? 0x0A) || (c =? 0x0D).

Fixpoint skipWhiteSpace (s : JsString) : JsString :=
  match s with
  | [] => []
  | c :: rest => if isJsonWhiteSpace c then skipWhiteSpace rest else s
  end.

Definition hexValue (c : N) : option N :=
  if (chr "0" <=? c) && (c <=? chr "9") then Some (c - chr "0")
  else if (chr "a" <=? c) && (c <=? chr "f") then Some (c - chr "a" + 10)
  else if (chr "A" <=? c) && (c <=? chr "F") then Some (c - chr "A" + 10)
  else None.

(** The character a one-letter escape stands for. *)
Definition unescape (e : N) : option N :=
  if e =? dquote then Some dquote
  else if e =? backslash then Some backslash
  else if e =? chr "/" then Some (chr "/")
  else if e =? chr "b" then Some 0x08
  else if e =? chr "f" then Some 0x0C
  else if e =? chr "n" then Some 0x0A
  else if e =? chr "r" then Some 0x0D
  else if e =? chr "t" then Some 0x09
  else None.

(** A string, read from just after its opening quote to its closing quote:
    the string and the text that follows. *)
Fixpoint parseStringBody (s : JsString) : option (JsString * JsString) :=
  match s with
  | [] => None
  | c :: rest =>
      if c =? dquote then Some ([], rest)
      else if c =? backslash then
        match rest with
        | [] => None
        | e :: rest' =>
            if e =? chr "u" then
              match rest' with
              | h3 :: h2 :: h1 :: h0 :: rest'' =>
                  match hexValue h3, hexValue h2, hexValue h1, hexValue h0 with
                  | Some d3, Some d2, Some d1, Some d0 =>
                      match parseStringBody rest'' with
                      | Some (str, after) =>
                          Some (d3 * 4096 + d2 * 256 + d1 * 16 + d0 :: str, after)
                      | None => None
                      end
                  | _, _, _, _ => None
                  end
              | _ => None
              end
            else
              match unescape e with
              | Some c' =>
                  match parseStringBody rest' with
                  | Some (str, after) => Some (c' :: str, after)
                  | None => None
                  end
              | None => None
              end
        end
      else if c <? 0x20 then None
      else
        match parseStringBody rest with
        | Some (str, after) => Some (c :: str, after)
        | None => None
        end
  end.

Definition isDigit (c : N) : bool := (chr "0" <=? c) && (c <=? chr "9").

Fixpoint spanDigits (s : JsString) : JsString * JsString :=
  match s with
  | [] => ([], [])
  | c :: rest =>
      if isDigit c then let (ds, after) := spanDigits rest in (c :: ds, after)
      else ([], s)
  end.

(** A number literal: an optional minus sign; an integer part that is a
    single 0 or starts with a digit from 1 to 9; an optional fraction, a dot
    and at least one digit; an optional exponent, e or E, an optional sign and
    at least one digit. The literal read and the text that follows. *)
Definition parseNumber (s : JsString) : option (JsString * JsString) :=
  let (sign, s1) :=
    match s with
    | c :: rest => if c =? chr "-" then ([c], rest) else ([], s)
    | [] => ([], s)
    end in
  let (int, s2) := spanDigits s1 in
  match int with
  | [] => None
  | d :: more =>
      if (d =? chr "0") && negb (length more =? 0)%nat then None
      else
        let frac :=
          match s2 with
          | c :: rest =>
              if c =? chr "." then
                let (ds, after) := spanDigits rest in
                match ds with
                | [] => None
                | _ => Some (c :: ds, after)
                end
              else Some ([], s2)
          | [] => Some ([], s2)
          end in
        match frac with
        | None => None
        | Some (fr, s3) =>
            let exp :=
              match s3 with
              | c :: rest =>
                  if (c =? chr "e") || (c =? chr "E") then
                    let (sg, rest1) :=
                      match rest with
                      | g :: rest' =>
                          if (g =? chr "+") || (g =? chr "-") then ([g], rest')
                          else ([], rest)
                      | [] => ([], rest)
                      end in
                    let (ds, after) := spanDigits rest1 in
                    match ds with
                    | [] => None
                    | _ => Some (c :: sg ++ ds, after)
                    end
                  else Some ([], s3)
              | [] => Some ([], s3)
              end in
            match exp with
            | None => None
            | Some (ex, s4) => Some (sign ++ int ++ fr ++ ex, s4)
            end
        end
  end.

(** [s] without the prefix [p], if it starts with it. *)
Fixpoint stripPrefix (p s : JsString) : option JsString :=
  match p, s with
  | [], _ => Some s
  | a :: p', b :: s' => if a =? b then stripPrefix p' s' else None
  | _ :: _, [] => None
  end.

(** A later member with the key of an earlier one replaces its value. *)
Fixpoint objectPut (members : list (JsString * Json)) (key : JsString)
    (value : Json) : list (JsString * Json) :=
  match members with
  | [] => [(key, value)]
  | (k, v) :: more =>
      if bool_decide (k = key) then (k, value) :: more
      else (k, v) :: objectPut more key value
  end.

Definition objectOf (pairs : list (JsString * Json)) : Json :=
  JsonObject (fold_left (fun members kv => objectPut members (fst kv) (snd kv))
                        pairs []).

(** Recursive descent; [fuel] bounds the depth of the calls. [parseElements]
    reads [value (, value)* ]] and [parseMembers] reads
    [string : value (, string : value)* }]. *)
Fixpoint parseValue (fuel : nat) (s : JsString) : option (Json * JsString) :=
  match fuel with
  | O => None
  | S fuel =>
      match skipWhiteSpace s with
      | [] => None
      | c :: rest =>
          if c =? dquote then
            match parseStringBody rest with
            | Some (str, after) => Some (JsonString str, after)
            | None => None
            end
          else if c =? chr "[" then
            match skipWhiteSpace rest with
            | c' :: rest' =>
                if c' =? chr "]" then Some (JsonArray [], rest')
                else
                  match parseElements fuel rest with
                  | Some (elements, after) => Some (JsonArray elements, after)
                  | None => None
                  end
            | [] => None
            end
          else if c =? chr "{" then
            match skipWhiteSpace rest with
            | c' :: rest' =>
                if c' =? chr "}" then Some (JsonObject [], rest')
                else
                  match parseMembers fuel rest with
                  | Some (pairs, after) => Some (objectOf pairs, after)
                  | None => None
                  end
            | [] => None
            end
          else if c =? chr "t" then
            match stripPrefix (js "rue") rest with
            | Some after => Some (JsonBool true, after)
            | None => None
            end
          else if c =? chr "f" then
            match stripPrefix (js "alse") rest with
            | Some after => Some (JsonBool false, after)
            | None => None
            end
          else if c =? chr "n" then
            match stripPrefix (js "ull") rest with
            | Some after => Some (JsonNull, after)
            | None => None
            end
          else
            match parseNumber (c :: rest) with
            | Some (literal, after) => Some (JsonNumber literal, after)
            | None => None
            end
      end
  end
with parseElements (fuel : nat) (s : JsString) : option (list Json * JsString) :=
  match fuel with
  | O => None
  | S fuel =>
      match parseValue fuel s with
      | None => None
      | Some (v, after) =>
          match skipWhiteSpace after with
          | c :: rest =>
              if c =? chr "," then
                match parseElements fuel rest with
                | Some (more, after') => Some (v :: more, after')
                | None => None
                end
              else if c =? chr "]" then Some ([v], rest)
              else None
          | [] => None
          end
      end
  end
with parseMembers (fuel : nat) (s : JsString)
    : option (list (JsString * Json) * JsString) :=
  match fuel with
  | O => None
  | S fuel =>
      match skipWhiteSpace s with
      | q :: rest =>
          if q =? dquote then
            match parseStringBody rest with
            | None => None
            | Some (key, after) =>
                match skipWhiteSpace after with
                | colon :: rest1 =>
                    if colon =? chr ":" then
                      match parseValue fuel rest1 with
                      | None => None
                      | Some (v, after1) =>
                          match skipWhiteSpace after1 with
                          | c :: rest2 =>
                              if c =? chr "," then
                                match parseMembers fuel rest2 with
                                | Some (more, after2) => Some ((key, v) :: more, after2)
                                | None => None
                                end
                              else if c =? chr "}" then Some ([(key, v)], rest2)
                              else None
                          | [] => None
                          end
                      end
                    else None
                | [] => None
                end
            end
          else None
      | [] => None
      end
  end.

(** [JSON.parse]: one value, white space around it, nothing else; [None] is
    the SyntaxError. *)
Definition JSON_parse_text (text : JsString) : option Json :=
  match parseValue (S (length text)) text with
  | Some (v, after) =>
      match skipWhiteSpace after with
      | [] => Some v
      | _ :: _ => None
      end
  | None => None
  end.

Definition JSON_parse (text : JsString) : M Json :=
  match JSON_parse_text text with
  | Some v => mret v
  | None => throw SyntaxError
  end.

(** *** The history log *)

(** [history.unshift(item)]: only an array has the method. *)
Definition Array_unshift (history : Json) (item : Json) : M Json :=
  match history with
  | JsonArray elements => mret (JsonArray (item :: elements))
  | _ => throw TypeError
  end.

(** [history.slice(from, to)] on indices that are already integers. *)
Definition Array_slice (history : Json) (from to : nat) : M Json :=
  match history with
  | JsonArray elements =>
      let len := length elements in
      let a := Nat.min from len in
      let b := Nat.min to len in
      mret (JsonArray (take (b - a) (drop a elements)))
  | _ => throw TypeError
  end.

(** The object literal [{ title: title, sku: sku, timestamp: ... }]. *)
Definition historyEntry (title sku timestamp : JsString) : Json :=
  JsonObject [ (js "title", JsonString title);
               (js "sku", JsonString sku);
               (js "timestamp", JsonString timestamp) ].

Definition saveToHistory (title sku : JsString) : M unit :=
  text ← GM_getValue "skuHistory" (js "[]");
  history ← JSON_parse text;
  timestamp ← Date_toISOString_now;
  history ← Array_unshift history (historyEntry title sku timestamp);
  kept ← Array_slice history 0 100;
  GM_setValue "skuHistory" (JSON_stringify kept).

(** One record of the log and the array the log is. *)
Record Entry : Type := mkEntry {
  entry_title : JsString;
  entry_sku : JsString;
  entry_timestamp : JsString
}.

(** The JSON value a reader of the log expects for an entry: an object with
    the members "title", "sku" and "timestamp", in this order, each of them a
    string. It is written out here on its own, not through the object
    literal of [saveToHistory]. *)
Definition entryJson (e : Entry) : Json :=
  JsonObject [ (js "title", JsonString (entry_title e));
               (js "sku", JsonString (entry_sku e));
               (js "timestamp", JsonString (entry_timestamp e)) ].

Definition historyJson (h : list Entry) : Json := JsonArray (map entryJson h).

(** Reading the log back, as a consumer of the storage does: [object[key]]
    on a parsed value, and the three fields of an element. *)
Fixpoint jsonMember (key : JsString) (members : list (JsString * Json))
  : option Json :=
  match members with
  | [] => None
  | (k, v) :: more => if bool_decide (k = key) then Some v else jsonMember key more
  end.

Definition stringField (key : JsString) (v : Json) : option JsString :=
  match v with
  | JsonObject members =>
      match jsonMember key members with
      | Some (JsonString s) => Some s
      | _ => None
      end
  | _ => None
  end.

Definition entryOf (v : Json) : option Entry :=
  match stringField (js "title") v, stringField (js "sku") v,
        stringField (js "timestamp") v with
  | Some title, Some sku, Some timestamp => Some (mkEntry title sku timestamp)
  | _, _, _ => None
  end.

(** The history the storage of a world holds: the stored text, or "[]" when
    nothing is stored yet, is JSON text of the array of these entries. Any
    text that [JSON.parse] reads as that array counts, not only the one
    [JSON.stringify] writes. *)
Definition storedHistory (w : World) (h : list Entry) : Prop :=
  JSON_parse_text (default (js "[]") (gm_storage w !! "skuHistory"%string))
  = Some (historyJson h).

(** What a reader of the storage finds: [JSON.parse] gives an array, and the
    "title", "sku" and "timestamp" of its elements, read one by one, are
    those of [h], in order. *)
Definition readsBack (w : World) (h : list Entry) : Prop :=
  ∃ elements,
    JSON_parse_text (default (js "[]") (gm_storage w !! "skuHistory"%string))
    = Some (JsonArray elements)
    ∧ map entryOf elements = map Some h.

(** A string between double quotes, for JSON text written by hand. *)
Definition quoted (s : JsString) : JsString := dquote :: s ++ [dquote].


(** A run of the script: one [saveToHistory] per (title, sku, instant), the
    clock showing that instant when the call is made. *)
Fixpoint saveAll (calls : list Entry) (w : World) : World :=
  match calls with
  | [] => w
  | c :: more =>
      saveAll more
        (snd (saveToHistory (entry_title c) (entry_sku c)
                (mkWorld (gm_storage w) (entry_timestamp c))))
  end.


(** Bytes in lowercase hexadecimal, two digits each, as digests are quoted. *)
Definition toHex (bytes : list N) : JsString :=
  flat_map (fun b => [hexDigit (b / 16); hexDigit (b mod 16)]) bytes.


(** A world whose log is full: 100 entries for "Vase". *)
Definition vaseEntry : Entry :=
  mkEntry (js "Vase") (js "AAAA-BBBB-CCCC") (js "2023-12-31T23:59:59.000Z").

Definition fullWorld : World :=
  mkWorld {[ "skuHistory"%string :=
             JSON_stringify (historyJson (replicate 100 vaseEntry)) ]}
          (js "2024-01-01T00:00:00.000Z").


(* ===================================================================== *)
(** ** Page detection: the predicates on [window.location] *)
(* ===================================================================== *)

(** [s] starts with [p]. *)
Fixpoint startsWith (s p : JsString) : bool :=
  match p, s with
  | [], _ => true
  | a :: p', b :: s' => (a =? b) && startsWith s' p'
  | _ :: _, [] => false
  end.

(** [s.includes(sub)]: [sub] occurs in [s], code unit by code unit. *)
Fixpoint String_includes (s sub : JsString) : bool :=
  startsWith s sub
  || match s with
     | [] => false
     | _ :: s' => String_includes s' sub
     end.

(** [s.split(sep)] for a separator of one code unit: the pieces between its
    occurrences, one more than there are occurrences. *)
Fixpoint String_split (sep : N) (s : JsString) : list JsString :=
  match s with
  | [] => [[]]
  | c :: rest =>
      if c =? sep then [] :: String_split sep rest
      else
        match String_split sep rest with
        | piece :: more => (c :: piece) :: more
        | [] => [[c]]
        end
  end.

(** The two fields of [window.location] the script reads. *)
Record Location : Type := mkLocation {
  href : JsString;
  pathname : JsString
}.

(** In a URL the path is part of the whole: scheme and host come before it,
    query and fragment after. *)
Definition pathInHref (loc : Location) : Prop :=
  ∃ origin rest, href loc = origin ++ pathname loc ++ rest.

Definition isCorrectStore (loc : Location) : bool :=
  String_includes (href loc) (js "/store/blenko-glass/").

Definition isNewProductPage (loc : Location) : bool :=
  String_includes (href loc) (js "/products/new").

(** The value [isExistingProductPage] returns; its [console.log] of the same
    tests writes to the developer console only. *)
Definition isExistingProductPage (loc : Location) : bool :=
  let path := pathname loc in
  String_includes path (js "/store/blenko-glass/products/")
  && negb (String_includes path (js "/new"))
  && negb (String_includes path (js "/inventory"))
  && negb (String_includes path (js "/metafields"))
  && negb (String_includes path (js "/variants/"))
  && (5 <=? length (String_split (chr "/") path))%nat.

Definition isProductPage (loc : Location) : bool :=
  isNewProductPage loc || isExistingProductPage loc.

(** Two digest bytes that give the same two characters of a SKU: the same
    byte, or the same quotient by 36 with remainders 14 ('O') and 26 ('0'). *)
Definition sameSkuPair (b b' : N) : Prop :=
  b = b'
  ∨ (b / 36 = b' / 36
     ∧ ((b mod 36 = 14 ∧ b' mod 36 = 26) ∨ (b mod 36 = 26 ∧ b' mod 36 = 14))).

(* ===================================================================== *)
(** ** Generating a SKU into the form *)
(* ===================================================================== *)

Section Dom.

(** The page is outside this model. What [generateAndSetSKU] does to the SKU
    field is kept as two steps on an element: [setReactValue(input, value)],
    and the green flash (the two [style] assignments and the [setTimeout]
    that undoes them). What these steps may do to the storage and the clock
    is left open here. *)
Variable Element : Type.
Variable setReactValue : Element → JsString → M unit.
Variable flashBackground : Element → M unit.

(** [generateAndSetSKU(productTitle, skuInput)] on a title that is a string,
    as its callers pass it ([titleInput.value.trim()]). *)
Definition generateAndSetSKU (productTitle : JsString) (skuInput : Element)
  : M (option JsString) :=
  newSKU ← generateSKU (JString productTitle);
  match newSKU with
  | Some sku =>
      if truthy (JString sku) then
        _ ← setReactValue skuInput sku;
        _ ← flashBackground skuInput;
        _ ← saveToHistory productTitle sku;
        mret (Some sku)
      else mret None
  | None => mret None
  end.

End Dom.


(** The character printed for the alphabet symbol at index [i]: the symbol,
    or '0' when the symbol is 'O'. *)
Definition printed (i : N) : N :=
  if symbol i =? chr "O" then chr "0" else symbol i.


(* ===================================================================== *)
(** * Properties *)
(* ===================================================================== *)

(** ** The platform functions on known inputs *)

(** SHA-256 on the test vectors of FIPS 180-4: one block, the empty message,
    two blocks. *)
Example digest_abc :
  toHex (SHA256.digest (js "abc"))
  = js "ba7816bf8f01cfea414140de5dae2223b00361a396177a9cb410ff61f20015ad".
Proof. vm_compute. reflexivity. Qed.

Example digest_empty :
  toHex (SHA256.digest [])
  = js "e3b0c44298fc1c149afbf4c8996fb92427ae41e4649b934ca495991b7852b855".
Proof. vm_compute. reflexivity. Qed.

Example digest_two_blocks :
  toHex (SHA256.digest
           (js "abcdbcdecdefdefgefghfghighijhijkijkljklmklmnlmnomnopnopq"))
  = js "248d6a61d20638b8e5c026930c3e6039a33ce45964ff2167f6ecedd419db06c1".
Proof. vm_compute. reflexivity. Qed.

(** The constants computed from the primes are those FIPS 180-4 prints. *)
Example sha256_constants :
  SHA256.K !! 0%nat = Some 0x428a2f98
  ∧ SHA256.K !! 63%nat = Some 0xc67178f2
  ∧ length SHA256.K = 64%nat
  ∧ SHA256.ra SHA256.H0 = 0x6a09e667
  ∧ SHA256.rh SHA256.H0 = 0x5be0cd19.
Proof. repeat split; reflexivity. Qed.

(** UTF-8: one, two and three bytes, a surrogate pair, a lone surrogate. *)
Example encode_samples :
  TextEncoder_encode (js "Az") = [0x41; 0x7A]
  ∧ TextEncoder_encode [0xE9] = [0xC3; 0xA9]
  ∧ TextEncoder_encode [0x20AC] = [0xE2; 0x82; 0xAC]
  ∧ TextEncoder_encode [0xD83D; 0xDE00] = [0xF0; 0x9F; 0x98; 0x80]
  ∧ TextEncoder_encode [0xD83D; 0x41] = [0xEF; 0xBF; 0xBD; 0x41]
  ∧ TextEncoder_encode [0xDE00] = [0xEF; 0xBF; 0xBD].
Proof. repeat split; reflexivity. Qed.

Example trim_samples :
  trim (js "  Widget  ") = js "Widget"
  ∧ trim (js " a b ") = js "a b"
  ∧ trim [0x09; 0xA0; 0x41; 0x2028; 0xFEFF] = [0x41]
  ∧ trim (js "   ") = []
  ∧ trim [0x200B; 0x20] = [0x200B].
Proof. repeat split; reflexivity. Qed.

Example substring_samples :
  substring (js "ABCDEFGHIJKL") 4 8 = js "EFGH"
  ∧ substring (js "ABC") 2 12 = js "C"
  ∧ substring (js "ABC") 8 1 = js "BC".
Proof. repeat split; reflexivity. Qed.

(** The SKUs of four titles. *)
Example generateSKU_samples :
  generateSKU (JString (js "Blenko Vase 123")) emptyWorld
  = (Returned (Some (js "GRFG-AGAV-FQD1")), emptyWorld)
  ∧ generateSKU (JString (js "Widget")) emptyWorld
    = (Returned (Some (js "DRF9-ESD6-BLG7")), emptyWorld)
  ∧ generateSKU (JString (js "")) emptyWorld = (Returned None, emptyWorld)
  ∧ generateSKU (JString (js "   ")) emptyWorld = (Returned None, emptyWorld)
  ∧ generateSKU JUndefined emptyWorld = (Returned None, emptyWorld).
Proof.
  generalize emptyWorld. intros w.
  split; [|split; [|split; [|split]]]; vm_compute; reflexivity.
Qed.

(** ** The digest: 32 bytes, each below 256 *)

Section Digest.

Lemma be_bytes_length n x : length (SHA256.be_bytes n x) = n.
Proof.
  unfold SHA256.be_bytes.
  by rewrite length_map, length_rev, length_seq.
Qed.

Lemma be_bytes_bound n x : Forall (fun b => b < 256) (SHA256.be_bytes n x).
Proof.
  unfold SHA256.be_bytes. apply Forall_map, Forall_forall.
  intros i _. cbn beta.
  change 255 with (N.ones 8). rewrite N.land_ones.
  apply N.mod_lt. done.
Qed.

Lemma digest_length msg : length (SHA256.digest msg) = 32%nat.
Proof.
  unfold SHA256.digest, SHA256.output.
  rewrite !length_app, !be_bytes_length. reflexivity.
Qed.

Lemma digest_bound msg : Forall (fun b => b < 256) (SHA256.digest msg).
Proof.
  unfold SHA256.digest, SHA256.output.
  rewrite !Forall_app. repeat split; apply be_bytes_bound.
Qed.

(** A digest starts with six bytes. *)
Lemma digest_six msg :
  ∃ b0 b1 b2 b3 b4 b5 rest,
    SHA256.digest msg = b0 :: b1 :: b2 :: b3 :: b4 :: b5 :: rest
    ∧ Forall (fun b => b < 256) [b0; b1; b2; b3; b4; b5].
Proof.
  pose proof (digest_length msg) as Hlen.
  pose proof (digest_bound msg) as Hb.
  destruct (SHA256.digest msg) as [|b0 [|b1 [|b2 [|b3 [|b4 [|b5 rest]]]]]];
    try discriminate.
  exists b0, b1, b2, b3, b4, b5, rest. split; [done|].
  repeat (apply Forall_cons in Hb as [? Hb]).
  repeat constructor; done.
Qed.

End Digest.

(** ** The alphabet *)

Lemma CHARSET_LENGTH_36 : CHARSET_LENGTH = 36.
Proof. reflexivity. Qed.

Lemma charAtIndex_symbol i :
  i < 36 → charAtIndex CHARSET i = Some (symbol i).
Proof.
  intros Hi. unfold charAtIndex, symbol.
  destruct (nth_lookup_or_length CHARSET (N.to_nat i) 0) as [H|H]; [done|].
  change (length CHARSET) with 36%nat in H. lia.
Qed.

Lemma mod_36_lt b : b mod 36 < 36.
Proof. apply N.mod_lt. done. Qed.

(** ** The sampling loop refines its specification *)

Section Sampling.

Lemma join_filled out : join (filled out) = out.
Proof.
  unfold filled, join. rewrite flat_map_app.
  assert (Hholes : ∀ k, flat_map
    (fun slot : option N => match slot with Some c => [c] | None => [] end)
    (replicate k None) = []) by (induction k; done).
  rewrite Hholes, app_nil_r.
  induction out as [|c out IH]; [done|]. cbn. by rewrite IH.
Qed.

Lemma array_set_filled out i :
  (length out < SKU_LENGTH)%nat → i < 36 →
  array_set (filled out) (length out) (charAtIndex CHARSET i)
  = filled (out ++ [symbol i]).
Proof.
  intros Hlen Hi. rewrite (charAtIndex_symbol i Hi).
  unfold array_set, filled.
  rewrite length_app, length_map, length_replicate.
  replace (length out <? length out + (SKU_LENGTH - length out))%nat with true
    by (symmetry; apply Nat.ltb_lt; lia).
  replace (SKU_LENGTH - length out)%nat
    with (S (SKU_LENGTH - length (out ++ [symbol i])))
    by (rewrite length_app; change (length [symbol i]) with 1%nat; lia).
  rewrite map_app, <- app_assoc. cbn [replicate map app].
  replace (length out) with (length (map Some out) + 0)%nat at 1
    by (rewrite length_map; lia).
  by rewrite insert_app_r.
Qed.

Lemma sample_loop_spec bytes : ∀ out,
  (length out ≤ SKU_LENGTH)%nat →
  sample_loop bytes (length out) (filled out)
  = (length (spec_emit bytes out), filled (spec_emit bytes out)).
Proof.
  induction bytes as [|byte rest IH]; intros out Hout; [done|].
  cbn [sample_loop spec_emit]. change 12%nat with SKU_LENGTH.
  destruct (length out <? SKU_LENGTH)%nat eqn:Hlt; [|done].
  apply Nat.ltb_lt in Hlt.
  rewrite CHARSET_LENGTH_36.
  rewrite array_set_filled by (done || apply mod_36_lt).
  set (out1 := out ++ [symbol ((byte / 36) mod 36)]).
  assert (Hlen1 : length out1 = S (length out))
    by (unfold out1; rewrite length_app; cbn [length]; lia).
  rewrite <- Hlen1.
  destruct (length out1 <? SKU_LENGTH)%nat eqn:Hlt1.
  - apply Nat.ltb_lt in Hlt1.
    rewrite array_set_filled by (done || apply mod_36_lt).
    set (out2 := out1 ++ [symbol (byte mod 36)]).
    assert (Hlen2 : length out2 = S (length out1))
      by (unfold out2; rewrite length_app; cbn [length]; lia).
    rewrite <- Hlen2. apply IH. lia.
  - apply IH. lia.
Qed.

(** The loop of [generateSKU] emits what the specification's words say. *)
Lemma sample_spec hashArray :
  join (sample hashArray) = spec_emit hashArray [].
Proof.
  unfold sample.
  change (replicate SKU_LENGTH None) with (filled []).
  change 0%nat with (length (@nil N)).
  rewrite sample_loop_spec by (cbn; lia).
  apply join_filled.
Qed.

(** On six bytes or more the output is the twelve symbols of the first six. *)
Lemma spec_emit_six b0 b1 b2 b3 b4 b5 rest :
  spec_emit (b0 :: b1 :: b2 :: b3 :: b4 :: b5 :: rest) []
  = emitted b0 ++ emitted b1 ++ emitted b2 ++ emitted b3 ++ emitted b4
    ++ emitted b5.
Proof. destruct rest; reflexivity. Qed.

End Sampling.

(** ** Facts about the 36 symbols, checked index by index *)

Lemma forall_below (P : N → bool) (k : nat) :
  forallb P (map N.of_nat (seq 0 k)) = true →
  ∀ i, i < N.of_nat k → P i = true.
Proof.
  intros Hall i Hi. rewrite forallb_forall in Hall. apply Hall.
  apply in_map_iff. exists (N.to_nat i). split; [lia|].
  apply in_seq. lia.
Qed.

(** The alphabet is 'A'..'Z' followed by '0'..'9'. *)
Lemma symbol_alphabet i :
  i < 36 →
  symbol i = if i <? 26 then chr "A" + i else chr "0" + (i - 26).
Proof.
  intros Hi. apply N.eqb_eq.
  revert i Hi.
  apply (forall_below
    (fun i => symbol i =? (if i <? 26 then chr "A" + i else chr "0" + (i - 26)))
    36).
  vm_compute. reflexivity.
Qed.

(** After the O-to-0 rewrite every symbol is one of [A-NP-Z0-9]. *)
Lemma symbol_replaced_ok i :
  i < 36 →
  isSkuSymbol (if symbol i =? chr "O" then chr "0" else symbol i) = true.
Proof.
  revert i.
  apply (forall_below
    (fun i => isSkuSymbol (if symbol i =? chr "O" then chr "0" else symbol i)) 36).
  vm_compute. reflexivity.
Qed.

(** The quotient of a byte by 36 is at most 7, so [mod 36] leaves it alone. *)
Lemma byte_div_36 b : b < 256 → b / 36 ≤ 7 ∧ (b / 36) mod 36 = b / 36.
Proof.
  intros Hb.
  assert (b / 36 < 8) by (apply N.Div0.div_lt_upper_bound; lia).
  split; [lia|]. apply N.mod_small. lia.
Qed.

(** The first eight symbols are 'A'..'H'; none of them is 'O'. *)
Lemma symbol_A_to_H i :
  i ≤ 7 → chr "A" ≤ symbol i ∧ symbol i ≤ chr "H" ∧ symbol i ≠ chr "O".
Proof.
  intros Hi. rewrite symbol_alphabet by lia.
  replace (i <? 26) with true by (symmetry; apply N.ltb_lt; lia).
  change (chr "A") with 65. change (chr "H") with 72. change (chr "O") with 79.
  lia.
Qed.

(** ** Running [generateSKU] *)

(** On a title that is not blank, [generateSKU] hashes, samples, rewrites
    'O' and formats; it leaves the world as it found it. *)
Lemma generateSKU_string (t : JsString) (w : World) :
  trim t ≠ [] →
  generateSKU (JString t) w
  = (Returned (Some (formatSKU (replace_O (join (sample
       (SHA256.digest (TextEncoder_encode (trim t)))))))), w).
Proof.
  intros Ht. unfold generateSKU.
  assert (Hne : t ≠ []) by (intros ->; by apply Ht).
  destruct t as [|c t]; [done|]. cbn [truthy typeof length Nat.eqb negb orb].
  change (String.eqb "string" "string") with true. cbn [negb orb].
  destruct (trim (c :: t)) as [|d u] eqn:Htrim; [done|].
  cbn [length Nat.eqb]. reflexivity.
Qed.

(** On a blank string the result is [null]. *)
Lemma generateSKU_blank (t : JsString) (w : World) :
  trim t = [] → generateSKU (JString t) w = (Returned None, w).
Proof.
  intros Ht. unfold generateSKU.
  destruct t as [|c t]; [reflexivity|].
  cbn [truthy typeof length Nat.eqb negb orb].
  change (String.eqb "string" "string") with true. cbn [negb orb].
  rewrite Ht. reflexivity.
Qed.

(** On anything but a string the result is [null]. *)
Lemma generateSKU_not_string (v : JsValue) (w : World) :
  (∀ s, v ≠ JString s) → generateSKU v w = (Returned None, w).
Proof.
  intros Hv. unfold generateSKU.
  destruct v as [| |b|x|z|d|s|c]; try (by destruct (Hv s));
    try reflexivity.
  - by destruct b.
  - destruct x as [|n|m e]; try reflexivity.
    cbn [truthy typeof]. by destruct (m =? 0)%Z.
  - cbn [truthy typeof]. by destruct (z =? 0)%Z.
  - by destruct c.
Qed.

(** The digest of any message starts with six bytes below 256, and the loop
    turns them into twelve symbols. *)
Lemma sample_digest (msg : list N) :
  ∃ b0 b1 b2 b3 b4 b5 rest,
    SHA256.digest msg = b0 :: b1 :: b2 :: b3 :: b4 :: b5 :: rest
    ∧ Forall (fun b => b < 256) [b0; b1; b2; b3; b4; b5]
    ∧ join (sample (SHA256.digest msg))
      = emitted b0 ++ emitted b1 ++ emitted b2 ++ emitted b3 ++ emitted b4
        ++ emitted b5.
Proof.
  destruct (digest_six msg) as (b0 & b1 & b2 & b3 & b4 & b5 & rest & Hd & Hb).
  exists b0, b1, b2, b3, b4, b5, rest. repeat split; [done..|].
  by rewrite sample_spec, Hd, spec_emit_six.
Qed.

(** C1: for every title that is not blank, [generateSKU] takes the SHA-256
    digest of the UTF-8 bytes of the trimmed title (32 bytes) and consumes it
    byte by byte, emitting for each byte the alphabet symbol at index
    [floor(byte / 36) mod 36] and then, while fewer than 12 symbols are out,
    the symbol at index [byte mod 36]; it stops at exactly 12 symbols, which
    are those of the first 6 digest bytes. The alphabet is 'A'..'Z' followed
    by '0'..'9'. *)
Theorem generateSKU_sampling (t : JsString) (w : World) :
  trim t ≠ [] →
  let digest := SHA256.digest (TextEncoder_encode (trim t)) in
  let sampled := join (sample digest) in
  length digest = 32%nat
  ∧ sampled = spec_emit digest []
  ∧ sampled = flat_map emitted (take 6 digest)
  ∧ length sampled = 12%nat
  ∧ join (sample (take 6 digest)) = sampled
  ∧ (∀ i, i < 36 →
       symbol i = if i <? 26 then chr "A" + i else chr "0" + (i - 26))
  ∧ generateSKU (JString t) w
    = (Returned (Some (formatSKU (replace_O sampled))), w).
Proof.
  intros Ht digest sampled.
  destruct (sample_digest (TextEncoder_encode (trim t)))
    as (b0 & b1 & b2 & b3 & b4 & b5 & rest & Hd & _ & Hs).
  fold digest in Hd, Hs. fold sampled in Hs.
  split; [apply digest_length|].
  split; [apply sample_spec|].
  assert (Htake : take 6 digest = [b0; b1; b2; b3; b4; b5]) by (by rewrite Hd).
  split; [by rewrite Htake, Hs|].
  split; [by rewrite Hs|].
  split; [by rewrite Htake, sample_spec, spec_emit_six, Hs|].
  split; [apply symbol_alphabet|].
  by apply generateSKU_string.
Qed.

Lemma generateSKU_sampling_witness :
  trim (js "Blenko Vase 123") ≠ []
  ∧ let digest :=
      SHA256.digest (TextEncoder_encode (trim (js "Blenko Vase 123"))) in
    let sampled := join (sample digest) in
    length digest = 32%nat
    ∧ sampled = spec_emit digest []
    ∧ sampled = flat_map emitted (take 6 digest)
    ∧ length sampled = 12%nat
    ∧ join (sample (take 6 digest)) = sampled
    ∧ (∀ i, i < 36 →
         symbol i = if i <? 26 then chr "A" + i else chr "0" + (i - 26))
    ∧ generateSKU (JString (js "Blenko Vase 123")) emptyWorld
      = (Returned (Some (formatSKU (replace_O sampled))), emptyWorld).
Proof.
  split; [vm_compute; discriminate|].
  apply (generateSKU_sampling (js "Blenko Vase 123") emptyWorld).
  vm_compute; discriminate.
Defined.

(** No symbol of a finished SKU is the letter 'O'. *)
Lemma isSkuSymbol_not_O c : isSkuSymbol c = true → c ≠ chr "O".
Proof.
  intros Hc ->. vm_compute in Hc. discriminate.
Qed.

(** The twelve sampled symbols, rewritten and formatted. *)
Lemma formatSKU_emitted b0 b1 b2 b3 b4 b5 :
  let r := fun i => if symbol i =? chr "O" then chr "0" else symbol i in
  formatSKU (replace_O (emitted b0 ++ emitted b1 ++ emitted b2 ++ emitted b3
                        ++ emitted b4 ++ emitted b5))
  = [ r ((b0 / 36) mod 36); r (b0 mod 36); r ((b1 / 36) mod 36); r (b1 mod 36);
      chr "-";
      r ((b2 / 36) mod 36); r (b2 mod 36); r ((b3 / 36) mod 36); r (b3 mod 36);
      chr "-";
      r ((b4 / 36) mod 36); r (b4 mod 36); r ((b5 / 36) mod 36); r (b5 mod 36) ].
Proof. reflexivity. Qed.

(** C2: for every title that is not blank the SKU has exactly 14 characters,
    three groups of four separated by two dashes, every character of a group
    is one of [A-NP-Z0-9], and the letter 'O' does not occur. *)
Theorem generateSKU_pattern (t : JsString) (w : World) :
  trim t ≠ [] →
  ∃ sku,
    generateSKU (JString t) w = (Returned (Some sku), w)
    ∧ length sku = 14%nat
    ∧ matchesSkuPattern sku = true
    ∧ chr "O" ∉ sku.
Proof.
  intros Ht.
  destruct (sample_digest (TextEncoder_encode (trim t)))
    as (b0 & b1 & b2 & b3 & b4 & b5 & rest & _ & _ & Hs).
  eexists. split.
  { rewrite generateSKU_string by done. rewrite Hs, formatSKU_emitted.
    reflexivity. }
  cbv zeta.
  split; [reflexivity|].
  assert (Hok := symbol_replaced_ok).
  split.
  - cbn [matchesSkuPattern forallb].
    rewrite !Hok by apply mod_36_lt. reflexivity.
  - rewrite !not_elem_of_cons.
    repeat split;
      try (apply not_elem_of_nil);
      try (apply not_eq_sym, isSkuSymbol_not_O, Hok, mod_36_lt);
      by vm_compute.
Qed.

Lemma generateSKU_pattern_witness :
  trim (js "Blenko Vase 123") ≠ []
  ∧ ∃ sku,
      generateSKU (JString (js "Blenko Vase 123")) emptyWorld
      = (Returned (Some sku), emptyWorld)
      ∧ length sku = 14%nat
      ∧ matchesSkuPattern sku = true
      ∧ chr "O" ∉ sku.
Proof.
  split; [vm_compute; discriminate|].
  apply (generateSKU_pattern (js "Blenko Vase 123") emptyWorld).
  vm_compute; discriminate.
Defined.

(** Being a string, as [typeof] tells it. *)
Lemma typeof_string v : typeof v = "string"%string ↔ ∃ s, v = JString s.
Proof.
  split.
  - destruct v as [| |b|x|z|d|s|c]; try discriminate; [by eexists|].
    by destruct c.
  - by intros [s ->].
Qed.

(** C3: [generateSKU] returns [null] exactly when its argument is not a
    string or is a string of length zero once trimmed; on every string that
    is not blank it returns a SKU; and it never throws. *)
Theorem generateSKU_null_iff (v : JsValue) (w : World) :
  (fst (generateSKU v w) = Returned None
   ↔ typeof v ≠ "string"%string
     ∨ ∃ s, v = JString s ∧ length (trim s) = 0%nat)
  ∧ (∀ s, v = JString s → length (trim s) ≠ 0%nat →
       ∃ sku, generateSKU v w = (Returned (Some sku), w))
  ∧ (∀ e, fst (generateSKU v w) ≠ Thrown e).
Proof.
  destruct (decide (typeof v = "string"%string)) as [Hs|Hs].
  - apply typeof_string in Hs as [s ->].
    destruct (trim s) as [|c u] eqn:Htrim.
    + rewrite generateSKU_blank by done. split; [|split].
      * split; [|done]. intros _. right. exists s. by rewrite Htrim.
      * intros s' [= <-]. by rewrite Htrim.
      * done.
    + rewrite generateSKU_string by (by rewrite Htrim). split; [|split].
      * split; [done|]. intros [H|(s' & [= <-] & H)]; [done|].
        by rewrite Htrim in H.
      * intros s' [= <-] _. by eexists.
      * done.
  - assert (Hv : ∀ s, v ≠ JString s) by (intros s ->; by apply Hs).
    rewrite generateSKU_not_string by done. split; [|split].
    + split; [by left|done].
    + intros s Hvs. by destruct (Hv s).
    + done.
Qed.

Lemma generateSKU_null_iff_witness :
  fst (generateSKU (JNumber (Finite 42 0)) emptyWorld) = Returned None
  ∧ fst (generateSKU (JString (js "   ")) emptyWorld) = Returned None
  ∧ ∃ sku, generateSKU (JString (js " a ")) emptyWorld
           = (Returned (Some sku), emptyWorld).
Proof.
  split; [|split].
  - apply (proj1 (generateSKU_null_iff (JNumber (Finite 42 0)) emptyWorld)).
    left. vm_compute. discriminate.
  - apply (proj1 (generateSKU_null_iff (JString (js "   ")) emptyWorld)).
    right. exists (js "   "). split; reflexivity.
  - apply (proj1 (proj2 (generateSKU_null_iff (JString (js " a ")) emptyWorld))
             (js " a ") eq_refl).
    vm_compute. discriminate.
Defined.

(** C6: the result of [generateSKU] depends on its argument alone: run in
    any two worlds (storage, clock) it settles to the same outcome, and it
    leaves the world it ran in unchanged. *)
Theorem generateSKU_deterministic (v : JsValue) (w1 w2 : World) :
  fst (generateSKU v w1) = fst (generateSKU v w2)
  ∧ snd (generateSKU v w1) = w1.
Proof.
  destruct (decide (typeof v = "string"%string)) as [Hs|Hs].
  - apply typeof_string in Hs as [s ->].
    destruct (trim s) as [|c u] eqn:Htrim.
    + by rewrite !generateSKU_blank.
    + by rewrite !generateSKU_string by (by rewrite Htrim).
  - assert (Hv : ∀ s, v ≠ JString s) by (intros s ->; by apply Hs).
    by rewrite !generateSKU_not_string.
Qed.

(** [replace_O] keeps the length. *)
Lemma replace_O_length s : length (replace_O s) = length s.
Proof. induction s as [|c s IH]; [done|]. cbn. by rewrite IH. Qed.

(** C7: [formatSKU] puts a dash after the 4th and the 8th character of a
    12-character string and returns a string of any other length as it is;
    inside [generateSKU], on a title that is not blank, the string handed to
    [formatSKU] always has 12 characters, so the SKU returned is the dashed
    one. *)
Theorem formatSKU_dashes :
  (∀ sku, length sku = 12%nat →
     formatSKU sku
     = take 4 sku ++ js "-" ++ take 4 (drop 4 sku) ++ js "-" ++ drop 8 sku)
  ∧ (∀ sku, length sku ≠ 12%nat → formatSKU sku = sku)
  ∧ (∀ t w, trim t ≠ [] →
       ∃ sku, length sku = 12%nat
         ∧ sku = replace_O (join (sample
                   (SHA256.digest (TextEncoder_encode (trim t)))))
         ∧ generateSKU (JString t) w = (Returned (Some (formatSKU sku)), w)
         ∧ formatSKU sku ≠ sku).
Proof.
  split; [|split].
  - intros sku Hlen.
    do 12 (destruct sku as [|? sku]; try discriminate).
    destruct sku; [reflexivity|discriminate].
  - intros sku Hlen. unfold formatSKU.
    destruct (length sku =? SKU_LENGTH)%nat eqn:E; [|done].
    apply Nat.eqb_eq in E. done.
  - intros t w Ht. eexists. split; [|split; [reflexivity|split]].
    + rewrite replace_O_length.
      destruct (sample_digest (TextEncoder_encode (trim t)))
        as (b0 & b1 & b2 & b3 & b4 & b5 & rest & _ & _ & Hs).
      by rewrite Hs.
    + by apply generateSKU_string.
    + destruct (sample_digest (TextEncoder_encode (trim t)))
        as (b0 & b1 & b2 & b3 & b4 & b5 & rest & _ & _ & Hs).
      rewrite Hs. intros H. apply (f_equal length) in H. discriminate.
Qed.

Lemma formatSKU_dashes_witness :
  formatSKU (js "ABCDEFGHIJKL") = js "ABCD-EFGH-IJKL"
  ∧ formatSKU (js "ABCDEFGHIJK") = js "ABCDEFGHIJK"
  ∧ ∃ sku, length sku = 12%nat
      ∧ sku = replace_O (join (sample
                (SHA256.digest (TextEncoder_encode (trim (js "Widget"))))))
      ∧ generateSKU (JString (js "Widget")) emptyWorld
        = (Returned (Some (formatSKU sku)), emptyWorld)
      ∧ formatSKU sku ≠ sku.
Proof.
  split; [|split].
  - apply (proj1 formatSKU_dashes (js "ABCDEFGHIJKL")). reflexivity.
  - apply (proj1 (proj2 formatSKU_dashes) (js "ABCDEFGHIJK")).
    vm_compute. discriminate.
  - apply (proj2 (proj2 formatSKU_dashes) (js "Widget") emptyWorld).
    vm_compute. discriminate.
Defined.

(** C10: in every SKU [generateSKU] returns, the 1st and 3rd character of
    each of the three groups (positions [5 g] and [5 g + 2] of the SKU for
    group [g], made from digest bytes [2 g] and [2 g + 1]) are the alphabet
    symbols at index [floor(byte / 36)], which is at most 7 and is left
    alone by [mod 36]; they lie in 'A'..'H' and the O-to-0 rewrite leaves
    them as sampled. *)
Theorem generateSKU_quotient_symbols (t : JsString) (w : World) :
  trim t ≠ [] →
  let digest := SHA256.digest (TextEncoder_encode (trim t)) in
  ∃ sku,
    generateSKU (JString t) w = (Returned (Some sku), w)
    ∧ ∀ g, (g < 3)%nat →
        ∃ b b',
          digest !! (2 * g)%nat = Some b
          ∧ digest !! (2 * g + 1)%nat = Some b'
          ∧ b / 36 ≤ 7 ∧ (b / 36) mod 36 = b / 36
          ∧ b' / 36 ≤ 7 ∧ (b' / 36) mod 36 = b' / 36
          ∧ join (sample digest) !! (4 * g)%nat = Some (symbol (b / 36))
          ∧ join (sample digest) !! (4 * g + 2)%nat = Some (symbol (b' / 36))
          ∧ sku !! (5 * g)%nat = Some (symbol (b / 36))
          ∧ sku !! (5 * g + 2)%nat = Some (symbol (b' / 36))
          ∧ chr "A" ≤ symbol (b / 36) ∧ symbol (b / 36) ≤ chr "H"
          ∧ chr "A" ≤ symbol (b' / 36) ∧ symbol (b' / 36) ≤ chr "H".
Proof.
  intros Ht digest.
  destruct (sample_digest (TextEncoder_encode (trim t)))
    as (b0 & b1 & b2 & b3 & b4 & b5 & rest & Hd & Hb & Hs).
  fold digest in Hd, Hs.
  eexists. split.
  { rewrite generateSKU_string by done. fold digest.
    rewrite Hs, formatSKU_emitted. reflexivity. }
  cbv zeta. rewrite Hs, Hd.
  assert (Hq : ∀ b, b < 256 →
    b / 36 ≤ 7 ∧ (b / 36) mod 36 = b / 36
    ∧ (if symbol ((b / 36) mod 36) =? chr "O" then chr "0"
       else symbol ((b / 36) mod 36)) = symbol (b / 36)
    ∧ chr "A" ≤ symbol (b / 36) ∧ symbol (b / 36) ≤ chr "H").
  { intros b Hlt. destruct (byte_div_36 b Hlt) as [Hle Hmod].
    destruct (symbol_A_to_H (b / 36) Hle) as (HA & HH & HO).
    rewrite Hmod. apply N.eqb_neq in HO. rewrite HO.
    repeat split; assumption. }
  repeat (apply Forall_cons in Hb as [(? & ? & ? & ? & ?)%Hq Hb]).
  intros g Hg.
  destruct g as [|[|[|g]]]; [| | |lia]; eexists _, _;
    cbn [Nat.mul Nat.add lookup list_lookup emitted app];
    repeat split; first [assumption | reflexivity | congruence].
Qed.

Lemma generateSKU_quotient_symbols_witness :
  trim (js "Widget") ≠ []
  ∧ let digest := SHA256.digest (TextEncoder_encode (trim (js "Widget"))) in
    ∃ sku,
      generateSKU (JString (js "Widget")) emptyWorld
      = (Returned (Some sku), emptyWorld)
      ∧ ∀ g, (g < 3)%nat →
          ∃ b b',
            digest !! (2 * g)%nat = Some b
            ∧ digest !! (2 * g + 1)%nat = Some b'
            ∧ b / 36 ≤ 7 ∧ (b / 36) mod 36 = b / 36
            ∧ b' / 36 ≤ 7 ∧ (b' / 36) mod 36 = b' / 36
            ∧ join (sample digest) !! (4 * g)%nat = Some (symbol (b / 36))
            ∧ join (sample digest) !! (4 * g + 2)%nat = Some (symbol (b' / 36))
            ∧ sku !! (5 * g)%nat = Some (symbol (b / 36))
            ∧ sku !! (5 * g + 2)%nat = Some (symbol (b' / 36))
            ∧ chr "A" ≤ symbol (b / 36) ∧ symbol (b / 36) ≤ chr "H"
            ∧ chr "A" ≤ symbol (b' / 36) ∧ symbol (b' / 36) ≤ chr "H".
Proof.
  split; [vm_compute; discriminate|].
  apply (generateSKU_quotient_symbols (js "Widget") emptyWorld).
  vm_compute; discriminate.
Defined.

(** ** Trimming *)

Section Trim.

Lemma trimStart_clean s c : head (trimStart s) = Some c → isWhiteSpace c = false.
Proof.
  induction s as [|d s IH]; [done|]. cbn [trimStart].
  destruct (isWhiteSpace d) eqn:Hd; [done|].
  by intros [= <-].
Qed.

Lemma trimStart_id s :
  (∀ c, head s = Some c → isWhiteSpace c = false) → trimStart s = s.
Proof.
  destruct s as [|d s]; [done|]. intros H. cbn [trimStart].
  by rewrite (H d eq_refl).
Qed.

Lemma trimStart_suffix s : ∃ pre, s = pre ++ trimStart s.
Proof.
  induction s as [|d s [pre IH]]; [by exists []|]. cbn [trimStart].
  destruct (isWhiteSpace d).
  - exists (d :: pre). cbn. by rewrite <- IH.
  - by exists [].
Qed.

(** A trimmed string neither starts nor ends with white space. *)
Lemma trim_clean_start t c : head (trim t) = Some c → isWhiteSpace c = false.
Proof.
  unfold trim, trimEnd.
  destruct (trimStart_suffix (rev (trimStart t))) as [pre Hpre].
  set (v := trimStart (rev (trimStart t))) in *.
  apply (f_equal (@rev N)) in Hpre. rewrite rev_involutive, rev_app_distr in Hpre.
  intros Hc. apply (trimStart_clean t). rewrite Hpre.
  destruct (rev v); [done|]. exact Hc.
Qed.

Lemma trim_clean_end t c : head (rev (trim t)) = Some c → isWhiteSpace c = false.
Proof.
  unfold trim, trimEnd. rewrite rev_involutive. apply trimStart_clean.
Qed.

Lemma trim_id s :
  (∀ c, head s = Some c → isWhiteSpace c = false) →
  (∀ c, head (rev s) = Some c → isWhiteSpace c = false) →
  trim s = s.
Proof.
  intros Hs He. unfold trim, trimEnd.
  rewrite (trimStart_id s Hs), (trimStart_id (rev s) He).
  apply rev_involutive.
Qed.

Lemma trim_idempotent t : trim (trim t) = trim t.
Proof. apply trim_id; [apply trim_clean_start|apply trim_clean_end]. Qed.

End Trim.

(** C5: surrounding white space does not matter: for every title [t],
    [generateSKU t] and [generateSKU (trim t)] settle alike; in particular
    "  Widget  " and "Widget" give the same SKU. *)
Theorem generateSKU_trim_invariant (t : JsString) (w : World) :
  generateSKU (JString t) w = generateSKU (JString (trim t)) w
  ∧ generateSKU (JString (js "  Widget  ")) w
    = generateSKU (JString (js "Widget")) w.
Proof.
  assert (H : ∀ s, generateSKU (JString s) w = generateSKU (JString (trim s)) w).
  { intros s. destruct (trim s) as [|c u] eqn:Htrim.
    - by rewrite (generateSKU_blank s), (generateSKU_blank []).
    - rewrite <- Htrim.
      rewrite (generateSKU_string s), (generateSKU_string (trim s));
        rewrite ?trim_idempotent, ?Htrim; done. }
  split; [apply H|].
  assert (E : trim (js "  Widget  ") = js "Widget") by (vm_compute; reflexivity).
  rewrite <- E. apply H.
Qed.

(** C8: case matters: "a" and "A" are encoded to different bytes, their
    digests differ within the six bytes the loop consumes, and the two SKUs
    differ. *)
Theorem generateSKU_case_sensitive (w : World) :
  TextEncoder_encode (trim (js "a")) = [0x61]
  ∧ TextEncoder_encode (trim (js "A")) = [0x41]
  ∧ take 6 (SHA256.digest [0x61]) = [0xca; 0x97; 0x81; 0x12; 0xca; 0x1b]
  ∧ take 6 (SHA256.digest [0x41]) = [0x55; 0x9a; 0xea; 0xd0; 0x82; 0x64]
  ∧ generateSKU (JString (js "a")) w = (Returned (Some (js "FWEH-DVAS-FWA1")), w)
  ∧ generateSKU (JString (js "A")) w = (Returned (Some (js "CNEK-GSF2-DWC2")), w)
  ∧ fst (generateSKU (JString (js "a")) w) ≠ fst (generateSKU (JString (js "A")) w).
Proof.
  assert (Ha : generateSKU (JString (js "a")) w
               = (Returned (Some (js "FWEH-DVAS-FWA1")), w)).
  { rewrite generateSKU_string by (vm_compute; discriminate).
    vm_compute. reflexivity. }
  assert (HA : generateSKU (JString (js "A")) w
               = (Returned (Some (js "CNEK-GSF2-DWC2")), w)).
  { rewrite generateSKU_string by (vm_compute; discriminate).
    vm_compute. reflexivity. }
  split; [vm_compute; reflexivity|].
  split; [vm_compute; reflexivity|].
  split; [vm_compute; reflexivity|].
  split; [vm_compute; reflexivity|].
  split; [exact Ha|]. split; [exact HA|].
  rewrite Ha, HA. cbn [fst]. intros [=].
Qed.

(** ** The O-to-0 rewrite *)

Lemma replace_O_lookup s i :
  replace_O s !! i = (fun c => if c =? chr "O" then chr "0" else c) <$> s !! i.
Proof.
  revert i. induction s as [|c s IH]; intros [|i]; try done. apply IH.
Qed.

Lemma replace_O_sameUpToO s1 s2 :
  Forall2 sameUpToO s1 s2 → replace_O s1 = replace_O s2.
Proof.
  induction 1 as [|a b s1 s2 Hab _ IH]; [done|].
  cbn [replace_O]. rewrite IH. f_equal.
  destruct Hab as [->|[[-> ->]|[-> ->]]]; reflexivity.
Qed.

(** C4: the letter 'O' is one of the 36 symbols the loop samples from
    (index 14); the rewrite to the digit '0' is made on the sampled string,
    character by character, before [formatSKU]; so two digests whose sampled
    strings differ only by 'O' against '0' give the same SKU, as the digests
    starting with bytes 14 and 26 do. *)
Theorem replace_O_after_sampling :
  charAtIndex CHARSET 14 = Some (chr "O")
  ∧ (∀ s i, replace_O s !! i
            = (fun c => if c =? chr "O" then chr "0" else c) <$> s !! i)
  ∧ (∀ t w, trim t ≠ [] →
       generateSKU (JString t) w
       = (Returned (Some (formatSKU (replace_O (join (sample
            (SHA256.digest (TextEncoder_encode (trim t)))))))), w))
  ∧ (∀ d1 d2,
       Forall2 sameUpToO (join (sample d1)) (join (sample d2)) →
       formatSKU (replace_O (join (sample d1)))
       = formatSKU (replace_O (join (sample d2))))
  ∧ (∀ t1 t2 w, trim t1 ≠ [] → trim t2 ≠ [] →
       Forall2 sameUpToO
         (join (sample (SHA256.digest (TextEncoder_encode (trim t1)))))
         (join (sample (SHA256.digest (TextEncoder_encode (trim t2))))) →
       generateSKU (JString t1) w = generateSKU (JString t2) w)
  ∧ (let d1 := 14 :: replicate 31 0 in
     let d2 := 26 :: replicate 31 0 in
     join (sample d1) = js "AOAAAAAAAAAA"
     ∧ join (sample d2) = js "A0AAAAAAAAAA"
     ∧ formatSKU (replace_O (join (sample d1))) = js "A0AA-AAAA-AAAA"
     ∧ formatSKU (replace_O (join (sample d2))) = js "A0AA-AAAA-AAAA").
Proof.
  split; [reflexivity|].
  split; [apply replace_O_lookup|].
  split; [apply generateSKU_string|].
  split.
  { intros d1 d2 H. by rewrite (replace_O_sameUpToO _ _ H). }
  split.
  { intros t1 t2 w H1 H2 H.
    rewrite !generateSKU_string by done.
    by rewrite (replace_O_sameUpToO _ _ H). }
  repeat split; vm_compute; reflexivity.
Qed.

Lemma replace_O_after_sampling_witness :
  Forall2 sameUpToO (join (sample (14 :: replicate 31 0)))
                    (join (sample (26 :: replicate 31 0)))
  ∧ formatSKU (replace_O (join (sample (14 :: replicate 31 0))))
    = formatSKU (replace_O (join (sample (26 :: replicate 31 0)))).
Proof.
  assert (H : Forall2 sameUpToO (join (sample (14 :: replicate 31 0)))
                                (join (sample (26 :: replicate 31 0)))).
  { change (Forall2 sameUpToO (js "AOAAAAAAAAAA") (js "A0AAAAAAAAAA")).
    constructor; [by left|].
    constructor; [right; left; by split|].
    repeat (constructor; [by left|]). constructor. }
  split; [exact H|].
  exact (proj1 (proj2 (proj2 (proj2 replace_O_after_sampling))) _ _ H).
Defined.

(** ** JSON: what [JSON.stringify] writes, [JSON.parse] reads back *)

Section JsonStrings.

Lemma hexValue_hexDigit d : d < 16 → hexValue (hexDigit d) = Some d.
Proof.
  intros Hd.
  assert (H : (match hexValue (hexDigit d) with
               | Some x => x =? d
               | None => false
               end) = true).
  { revert d Hd.
    apply (forall_below (fun d => match hexValue (hexDigit d) with
                                  | Some x => x =? d
                                  | None => false
                                  end) 16).
    vm_compute. reflexivity. }
  destruct (hexValue (hexDigit d)); [|done].
  apply N.eqb_eq in H. by subst.
Qed.

Lemma hex_digits_value c :
  c < 65536 →
  ((c / 4096) mod 16) * 4096 + ((c / 256) mod 16) * 256
  + ((c / 16) mod 16) * 16 + c mod 16 = c.
Proof.
  intros Hc.
  replace (c / 256) with (c / 16 / 16) by (by rewrite N.Div0.div_div).
  replace (c / 4096) with (c / 16 / 16 / 16) by (by rewrite !N.Div0.div_div).
  assert (H1 : c / 16 < 4096) by (apply N.Div0.div_lt_upper_bound; lia).
  assert (H2 : c / 16 / 16 < 256) by (apply N.Div0.div_lt_upper_bound; lia).
  assert (H3 : c / 16 / 16 / 16 < 16) by (apply N.Div0.div_lt_upper_bound; lia).
  rewrite (N.mod_small (c / 16 / 16 / 16)) by done.
  pose proof (N.div_mod' c 16).
  pose proof (N.div_mod' (c / 16) 16).
  pose proof (N.div_mod' (c / 16 / 16) 16).
  lia.
Qed.

(** Reading an escape [\uXXXX] gives back the code unit it was made from. *)
Lemma parseStringBody_unicodeEscape c tl :
  c < 65536 →
  parseStringBody (unicodeEscape c ++ tl)
  = match parseStringBody tl with
    | Some (str, after) => Some (c :: str, after)
    | None => None
    end.
Proof.
  intros Hc. unfold unicodeEscape. cbn [app parseStringBody].
  change (backslash =? dquote) with false.
  change (backslash =? backslash) with true.
  change (chr "u" =? chr "u") with true. cbv iota.
  rewrite !hexValue_hexDigit by (apply N.mod_lt; done).
  by rewrite hex_digits_value.
Qed.

(** An ordinary code unit is read as itself. *)
Lemma parseStringBody_plain c tl :
  c ≠ dquote → c ≠ backslash → 0x20 ≤ c →
  parseStringBody (c :: tl)
  = match parseStringBody tl with
    | Some (str, after) => Some (c :: str, after)
    | None => None
    end.
Proof.
  intros Hq Hb Hc. cbn [parseStringBody].
  apply N.eqb_neq in Hq, Hb. rewrite Hq, Hb.
  replace (c <? 32) with false by (symmetry; apply N.ltb_ge; lia).
  done.
Qed.

Lemma parseStringBody_quoteUnit c tl :
  isHighSurrogate c = false → isLowSurrogate c = false →
  parseStringBody (quoteUnit c ++ tl)
  = match parseStringBody tl with
    | Some (str, after) => Some (c :: str, after)
    | None => None
    end.
Proof.
  intros _ _. unfold quoteUnit.
  repeat (destruct (c =? _) eqn:? at 1;
          [match goal with H : (c =? _) = true |- _ =>
             apply N.eqb_eq in H; subst c; reflexivity end|]).
  repeat match goal with H : (c =? _) = false |- _ =>
    apply N.eqb_neq in H end.
  destruct (c <? 32) eqn:Hlt.
  - apply N.ltb_lt in Hlt. apply parseStringBody_unicodeEscape. lia.
  - apply N.ltb_ge in Hlt. by apply parseStringBody_plain.
Qed.

Lemma surrogate_plain c :
  isHighSurrogate c = true ∨ isLowSurrogate c = true →
  c ≠ dquote ∧ c ≠ backslash ∧ 0x20 ≤ c ∧ c < 65536.
Proof.
  unfold isHighSurrogate, isLowSurrogate, dquote, backslash.
  intros [H|H]; apply andb_true_iff in H as [H1 H2];
    apply N.leb_le in H1, H2; lia.
Qed.

Lemma parseStringBody_quoteBody_bounded n : ∀ s after,
  (length s ≤ n)%nat →
  parseStringBody (quoteBody s ++ dquote :: after) = Some (s, after).
Proof.
  induction n as [|n IH]; intros s after Hlen.
  { destruct s; [reflexivity|cbn in Hlen; lia]. }
  destruct s as [|c rest]; [reflexivity|].
  cbn [length] in Hlen. cbn [quoteBody].
  destruct (isHighSurrogate c) eqn:Hhigh.
  - destruct (surrogate_plain c (or_introl Hhigh)) as (Hq & Hb & Hlo & Hhi).
    destruct rest as [|d rest'].
    + rewrite parseStringBody_unicodeEscape by done. reflexivity.
    + destruct (isLowSurrogate d) eqn:Hlow.
      * destruct (surrogate_plain d (or_intror Hlow)) as (Hq' & Hb' & Hlo' & _).
        cbn [app]. rewrite parseStringBody_plain by done.
        rewrite parseStringBody_plain by done.
        rewrite IH by (cbn [length] in Hlen; lia). reflexivity.
      * rewrite <- app_assoc, parseStringBody_unicodeEscape by done.
        rewrite IH by lia. reflexivity.
  - destruct (isLowSurrogate c) eqn:Hlow.
    + destruct (surrogate_plain c (or_intror Hlow)) as (_ & _ & _ & Hhi).
      rewrite <- app_assoc, parseStringBody_unicodeEscape by done.
      rewrite IH by lia. reflexivity.
    + rewrite <- app_assoc, parseStringBody_quoteUnit by done.
      rewrite IH by lia. reflexivity.
Qed.

(** A quoted string is read back as the string it quotes. *)
Lemma parseStringBody_quoteBody s after :
  parseStringBody (quoteBody s ++ dquote :: after) = Some (s, after).
Proof. by apply (parseStringBody_quoteBody_bounded (length s)). Qed.

End JsonStrings.

(** Settle the parser's tests on characters that are known: skip no white
    space before them and take the branch they select. *)
Ltac char_tests :=
  repeat progress
    (cbn [skipWhiteSpace];
     repeat match goal with
       | |- context [isJsonWhiteSpace ?c] =>
           let r := eval vm_compute in (isJsonWhiteSpace c) in
           match r with
           | true => change (isJsonWhiteSpace c) with true
           | false => change (isJsonWhiteSpace c) with false
           end
       | |- context [N.eqb ?a ?b] =>
           let r := eval vm_compute in (N.eqb a b) in
           match r with
           | true => change (N.eqb a b) with true
           | false => change (N.eqb a b) with false
           end
       end;
     cbv iota).

Section JsonHistory.

(** The text of a log entry, with every fixed character spelled out. *)
Lemma stringify_entry e :
  JSON_stringify (entryJson e)
  = chr "{" :: QuoteJSONString (js "title") ++ chr ":"
    :: QuoteJSONString (entry_title e) ++ chr ","
    :: QuoteJSONString (js "sku") ++ chr ":"
    :: QuoteJSONString (entry_sku e) ++ chr ","
    :: QuoteJSONString (js "timestamp") ++ chr ":"
    :: QuoteJSONString (entry_timestamp e) ++ [chr "}"].
Proof.
  destruct e as [t s ts].
  cbn [entryJson entry_title entry_sku entry_timestamp
       JSON_stringify map commaSeparated fst snd].
  repeat (rewrite <- ?app_assoc; cbn [app]). reflexivity.
Qed.

Lemma parseValue_string fuel s after :
  parseValue (S fuel) (QuoteJSONString s ++ after) = Some (JsonString s, after).
Proof.
  unfold QuoteJSONString. cbn [app parseValue skipWhiteSpace].
  char_tests.
  rewrite <- app_assoc. cbn [app]. by rewrite parseStringBody_quoteBody.
Qed.

(** One member followed by a comma and more members. *)
Lemma parseMembers_more fuel key v tl1 tl more after :
  parseValue fuel tl1 = Some (v, chr "," :: tl) →
  parseMembers fuel tl = Some (more, after) →
  parseMembers (S fuel) (QuoteJSONString key ++ chr ":" :: tl1)
  = Some ((key, v) :: more, after).
Proof.
  intros Hv Hmore. unfold QuoteJSONString.
  cbn [app parseMembers skipWhiteSpace].
  char_tests.
  rewrite <- app_assoc. cbn [app]. rewrite parseStringBody_quoteBody.
  char_tests.
  rewrite Hv. char_tests.
  by rewrite Hmore.
Qed.

(** The last member, closed by a brace. *)
Lemma parseMembers_last fuel key v tl1 after :
  parseValue fuel tl1 = Some (v, chr "}" :: after) →
  parseMembers (S fuel) (QuoteJSONString key ++ chr ":" :: tl1)
  = Some ([(key, v)], after).
Proof.
  intros Hv. unfold QuoteJSONString.
  cbn [app parseMembers skipWhiteSpace].
  char_tests.
  rewrite <- app_assoc. cbn [app]. rewrite parseStringBody_quoteBody.
  char_tests.
  rewrite Hv. char_tests.
  done.
Qed.

(** An object whose first member starts right after the brace. *)
Lemma parseValue_object fuel key tl pairs after :
  parseMembers fuel (QuoteJSONString key ++ tl) = Some (pairs, after) →
  parseValue (S fuel) (chr "{" :: QuoteJSONString key ++ tl)
  = Some (objectOf pairs, after).
Proof.
  intros Hm. cbn [parseValue skipWhiteSpace].
  char_tests.
  rewrite Hm. unfold QuoteJSONString. cbn [app skipWhiteSpace].
  char_tests.
  done.
Qed.

(** A log entry is read back from its text. *)
Lemma parseValue_entry fuel e after :
  parseValue (5 + fuel) (JSON_stringify (entryJson e) ++ after)
  = Some (entryJson e, after).
Proof.
  rewrite stringify_entry. cbn [Nat.add].
  repeat (rewrite <- ?app_assoc; cbn [app]).
  erewrite parseValue_object.
  2:{ eapply parseMembers_more; [apply parseValue_string|].
      eapply parseMembers_more; [apply parseValue_string|].
      eapply parseMembers_last. apply parseValue_string. }
  destruct e as [t s ts]. reflexivity.
Qed.

(** One element followed by a comma and more elements. *)
Lemma parseElements_more fuel s v tl more after :
  parseValue fuel s = Some (v, chr "," :: tl) →
  parseElements fuel tl = Some (more, after) →
  parseElements (S fuel) s = Some (v :: more, after).
Proof.
  intros Hv Hmore. cbn [parseElements]. rewrite Hv. char_tests.
  by rewrite Hmore.
Qed.

(** The last element, closed by a bracket. *)
Lemma parseElements_last fuel s v after :
  parseValue fuel s = Some (v, chr "]" :: after) →
  parseElements (S fuel) s = Some ([v], after).
Proof.
  intros Hv. cbn [parseElements]. rewrite Hv. char_tests.
  done.
Qed.

(** An array whose first element is an object. *)
Lemma parseValue_array fuel tl elements after :
  parseElements fuel (chr "{" :: tl) = Some (elements, after) →
  parseValue (S fuel) (chr "[" :: chr "{" :: tl) = Some (JsonArray elements, after).
Proof.
  intros He. cbn [parseValue skipWhiteSpace].
  char_tests.
  by rewrite He.
Qed.

(** The entries of a log that is not empty are read back one by one. *)
Lemma parseElements_history h : ∀ e fuel after,
  (length h + 6 ≤ fuel)%nat →
  parseElements fuel
    (commaSeparated (map JSON_stringify (map entryJson (e :: h)))
     ++ chr "]" :: after)
  = Some (map entryJson (e :: h), after).
Proof.
  induction h as [|e' h IH]; intros e fuel after Hfuel.
  - destruct fuel as [|fuel]; [cbn in Hfuel; lia|].
    cbn [map commaSeparated].
    apply parseElements_last.
    replace fuel with (5 + (fuel - 5))%nat by (cbn in Hfuel; lia).
    apply parseValue_entry.
  - destruct fuel as [|fuel]; [cbn in Hfuel; lia|].
    cbn [length] in Hfuel.
    change (commaSeparated (map JSON_stringify (map entryJson (e :: e' :: h))))
      with (JSON_stringify (entryJson e) ++ chr ","
            :: commaSeparated (map JSON_stringify (map entryJson (e' :: h)))).
    rewrite <- app_assoc. cbn [app].
    change (map entryJson (e :: e' :: h))
      with (entryJson e :: map entryJson (e' :: h)).
    eapply parseElements_more.
    + replace fuel with (5 + (fuel - 5))%nat by lia.
      apply parseValue_entry.
    + apply IH. lia.
Qed.

Lemma stringify_entry_length e : (6 ≤ length (JSON_stringify (entryJson e)))%nat.
Proof.
  rewrite stringify_entry. unfold QuoteJSONString.
  repeat (rewrite ?length_app; cbn [length]). lia.
Qed.

Lemma stringify_history_length h :
  (6 * length h
   ≤ length (commaSeparated (map JSON_stringify (map entryJson h))))%nat.
Proof.
  induction h as [|e h IH]; [done|].
  pose proof (stringify_entry_length e) as He.
  destruct h as [|e' h]; [cbn [map commaSeparated length]; lia|].
  change (commaSeparated (map JSON_stringify (map entryJson (e :: e' :: h))))
    with (JSON_stringify (entryJson e) ++ chr ","
          :: commaSeparated (map JSON_stringify (map entryJson (e' :: h)))).
  rewrite length_app. cbn [length] in *. lia.
Qed.

(** The text [saveToHistory] stores is read back as the log it was made
    from. *)
Lemma JSON_parse_text_history h :
  JSON_parse_text (JSON_stringify (historyJson h)) = Some (historyJson h).
Proof.
  destruct h as [|e h]; [reflexivity|].
  unfold JSON_parse_text, historyJson.
  set (body := commaSeparated (map JSON_stringify (map entryJson (e :: h)))).
  assert (Hbody : ∃ tl, body = chr "{" :: tl).
  { unfold body. cbn [map commaSeparated]. rewrite stringify_entry.
    destruct (map JSON_stringify (map entryJson h)); cbn [app]; by eexists. }
  assert (Hlen : (6 * length (e :: h) ≤ length body)%nat)
    by apply stringify_history_length.
  change (JSON_stringify (JsonArray (map entryJson (e :: h))))
    with (chr "[" :: body ++ [chr "]"]).
  assert (Hparse : parseElements (length (chr "[" :: body ++ [chr "]"]))
                     (body ++ [chr "]"])
                   = Some (map entryJson (e :: h), [])).
  { apply parseElements_history.
    cbn [length] in *. rewrite length_app. cbn [length]. lia. }
  destruct Hbody as [tl Htl]. rewrite Htl in Hparse |- *.
  cbn [app] in Hparse |- *.
  rewrite (parseValue_array _ _ _ _ Hparse). reflexivity.
Qed.

End JsonHistory.

(** ** The history log *)

Section History.

Lemma take_min_length {A} (l : list A) n : take (Nat.min n (length l)) l = take n l.
Proof.
  destruct (Nat.le_ge_cases n (length l)) as [H|H].
  - by rewrite Nat.min_l.
  - rewrite Nat.min_r by done. by rewrite !take_ge by lia.
Qed.

(** Whenever the stored text is an array, [saveToHistory] stores the text of
    the new entry followed by the old ones, cut after 100. *)
Lemma saveToHistory_array title sku w old :
  JSON_parse_text (default (js "[]") (gm_storage w !! "skuHistory"%string))
  = Some (JsonArray old) →
  saveToHistory title sku w
  = (Returned tt,
     mkWorld (<["skuHistory"%string :=
                JSON_stringify
                  (JsonArray (take 100 (historyEntry title sku (clock_iso w) :: old)))]>
              (gm_storage w))
             (clock_iso w)).
Proof.
  intros Hparse.
  unfold saveToHistory, mbind, M_bind, GM_getValue, JSON_parse.
  rewrite Hparse.
  unfold Date_toISOString_now, Array_unshift, Array_slice, GM_setValue,
    mret, M_ret.
  rewrite Nat.min_0_l, Nat.sub_0_r, take_min_length. reflexivity.
Qed.

(** When the stored text is not JSON, [JSON.parse] throws and nothing is
    stored. *)
Lemma saveToHistory_malformed title sku w :
  JSON_parse_text (default (js "[]") (gm_storage w !! "skuHistory"%string)) = None →
  saveToHistory title sku w = (Thrown SyntaxError, w).
Proof.
  intros Hparse.
  unfold saveToHistory, mbind, M_bind, GM_getValue, JSON_parse.
  by rewrite Hparse.
Qed.

(** When the stored text is JSON but not an array, there is no [unshift] to
    call: a TypeError, and nothing is stored. *)
Lemma saveToHistory_not_array title sku w v :
  JSON_parse_text (default (js "[]") (gm_storage w !! "skuHistory"%string))
  = Some v →
  (∀ elements, v ≠ JsonArray elements) →
  saveToHistory title sku w = (Thrown TypeError, w).
Proof.
  intros Hparse Hv.
  unfold saveToHistory, mbind, M_bind, GM_getValue, JSON_parse.
  rewrite Hparse.
  unfold Date_toISOString_now, Array_unshift, mret, M_ret.
  destruct v; try reflexivity. by destruct (Hv elements).
Qed.

Lemma storedHistory_parse w h :
  storedHistory w h →
  JSON_parse_text (default (js "[]") (gm_storage w !! "skuHistory"%string))
  = Some (historyJson h).
Proof. intros H. exact H. Qed.

(** The text [JSON.stringify] writes for a history is a stored history. *)
Lemma storedHistory_stringify w h :
  gm_storage w !! "skuHistory"%string = Some (JSON_stringify (historyJson h)) →
  storedHistory w h.
Proof.
  intros H. unfold storedHistory. rewrite H. apply JSON_parse_text_history.
Qed.

(** With nothing stored the history is empty. *)
Lemma storedHistory_absent w :
  gm_storage w !! "skuHistory"%string = None → storedHistory w [].
Proof. intros H. unfold storedHistory. rewrite H. reflexivity. Qed.

(** The fields of an entry are read back from its JSON value. *)
Lemma entryOf_entryJson e : entryOf (entryJson e) = Some e.
Proof. by destruct e. Qed.

Lemma entryOf_historyJson h : map entryOf (map entryJson h) = map Some h.
Proof.
  induction h as [|e h IH]; [done|]. cbn [map].
  by rewrite entryOf_entryJson, IH.
Qed.

(** A stored history is what a reader finds. *)
Lemma storedHistory_readsBack w h : storedHistory w h → readsBack w h.
Proof.
  intros H. exists (map entryJson h). split; [exact H|].
  apply entryOf_historyJson.
Qed.

(** On a stored history the call returns normally and stores the new entry
    followed by the old ones, cut after 100. *)
Lemma saveToHistory_entries title sku w old :
  storedHistory w old →
  saveToHistory title sku w
  = (Returned tt,
     mkWorld (<["skuHistory"%string :=
                JSON_stringify
                  (historyJson (take 100 (mkEntry title sku (clock_iso w) :: old)))]>
              (gm_storage w))
             (clock_iso w)).
Proof.
  intros Hold.
  rewrite (saveToHistory_array title sku w (map entryJson old))
    by (by apply storedHistory_parse).
  unfold historyJson.
  change (historyEntry title sku (clock_iso w))
    with (entryJson (mkEntry title sku (clock_iso w))).
  change (entryJson (mkEntry title sku (clock_iso w)) :: map entryJson old)
    with (map entryJson (mkEntry title sku (clock_iso w) :: old)).
  by rewrite firstn_map.
Qed.

(** C9: whatever history is stored (none yet, a short one, or 100 entries and
    more; as any JSON text of it), a call of [saveToHistory] returns normally
    and stores the history made of one new entry followed by the old entries,
    newest first, cut after 100: so at most 100 entries are stored, the new
    one and the 99 most recent old ones. Read back with [JSON.parse], the
    stored text is an array whose first element has the "title" and the "sku"
    of the call and the clock's time as "timestamp", and whose elements are,
    field by field, those of that history; nothing else in the world
    changes. *)
Theorem saveToHistory_capped (title sku : JsString) (w : World) (old : list Entry) :
  storedHistory w old →
  let entry := mkEntry title sku (clock_iso w) in
  let kept := take 100 (entry :: old) in
  let w' := snd (saveToHistory title sku w) in
  fst (saveToHistory title sku w) = Returned tt
  ∧ gm_storage w' !! "skuHistory"%string = Some (JSON_stringify (historyJson kept))
  ∧ storedHistory w' kept
  ∧ readsBack w' kept
  ∧ (∃ text first rest,
       gm_storage w' !! "skuHistory"%string = Some text
       ∧ JSON_parse_text text = Some (JsonArray (first :: rest))
       ∧ stringField (js "title") first = Some title
       ∧ stringField (js "sku") first = Some sku
       ∧ stringField (js "timestamp") first = Some (clock_iso w)
       ∧ map entryOf rest = map Some (take 99 old))
  ∧ JSON_parse_text (JSON_stringify (historyJson kept)) = Some (historyJson kept)
  ∧ kept = entry :: take 99 old
  ∧ ((length old < 100)%nat → kept = entry :: old)
  ∧ (length kept ≤ 100)%nat
  ∧ length kept = Nat.min 100 (S (length old))
  ∧ clock_iso w' = clock_iso w
  ∧ (∀ key, key ≠ "skuHistory"%string →
       gm_storage w' !! key = gm_storage w !! key).
Proof.
  intros Hold entry kept w'.
  assert (Hrun : saveToHistory title sku w
    = (Returned tt,
       mkWorld (<["skuHistory"%string := JSON_stringify (historyJson kept)]>
                (gm_storage w)) (clock_iso w))).
  { by apply saveToHistory_entries. }
  assert (Hstored : storedHistory
    (mkWorld (<["skuHistory"%string := JSON_stringify (historyJson kept)]>
              (gm_storage w)) (clock_iso w)) kept).
  { apply storedHistory_stringify. cbn [gm_storage]. by rewrite lookup_insert_eq. }
  unfold w'. rewrite Hrun. cbn [fst snd].
  split; [done|].
  split; [cbn [gm_storage]; by rewrite lookup_insert_eq|].
  split; [exact Hstored|].
  split; [by apply storedHistory_readsBack|].
  split.
  { exists (JSON_stringify (historyJson kept)), (entryJson entry),
      (map entryJson (take 99 old)).
    split; [cbn [gm_storage]; by rewrite lookup_insert_eq|].
    split; [apply JSON_parse_text_history|].
    split; [reflexivity|]. split; [reflexivity|]. split; [reflexivity|].
    apply entryOf_historyJson. }
  split; [apply JSON_parse_text_history|].
  split; [done|].
  split; [intros Hlt; unfold kept; cbn [take]; by rewrite take_ge by lia|].
  split; [unfold kept; rewrite length_take; lia|].
  split; [unfold kept; rewrite length_take; cbn [length]; lia|].
  split; [done|].
  intros key Hkey. cbn [gm_storage]. by rewrite lookup_insert_ne.
Qed.

Lemma saveToHistory_capped_witness :
  storedHistory fullWorld (replicate 100 vaseEntry)
  ∧ let old := replicate 100 vaseEntry in
    let entry :=
      mkEntry (js "Widget") (js "DRF9-ESD6-BLG7") (clock_iso fullWorld) in
    let kept := take 100 (entry :: old) in
    let w' := snd (saveToHistory (js "Widget") (js "DRF9-ESD6-BLG7") fullWorld) in
    fst (saveToHistory (js "Widget") (js "DRF9-ESD6-BLG7") fullWorld) = Returned tt
    ∧ gm_storage w' !! "skuHistory"%string
      = Some (JSON_stringify (historyJson kept))
    ∧ storedHistory w' kept
    ∧ readsBack w' kept
    ∧ (∃ text first rest,
         gm_storage w' !! "skuHistory"%string = Some text
         ∧ JSON_parse_text text = Some (JsonArray (first :: rest))
         ∧ stringField (js "title") first = Some (js "Widget")
         ∧ stringField (js "sku") first = Some (js "DRF9-ESD6-BLG7")
         ∧ stringField (js "timestamp") first = Some (clock_iso fullWorld)
         ∧ map entryOf rest = map Some (take 99 old))
    ∧ JSON_parse_text (JSON_stringify (historyJson kept)) = Some (historyJson kept)
    ∧ kept = entry :: take 99 old
    ∧ ((length old < 100)%nat → kept = entry :: old)
    ∧ (length kept ≤ 100)%nat
    ∧ length kept = Nat.min 100 (S (length old))
    ∧ clock_iso w' = clock_iso fullWorld
    ∧ (∀ key, key ≠ "skuHistory"%string →
         gm_storage w' !! key = gm_storage fullWorld !! key).
Proof.
  assert (H : storedHistory fullWorld (replicate 100 vaseEntry)).
  { apply storedHistory_stringify. unfold fullWorld. cbn [gm_storage].
    apply lookup_singleton_eq. }
  split; [exact H|].
  exact (saveToHistory_capped (js "Widget") (js "DRF9-ESD6-BLG7") fullWorld
           (replicate 100 vaseEntry) H).
Defined.

(** The text stored by a first call, character by character. *)
Example saveToHistory_text_sample :
  gm_storage (snd (saveToHistory (js "Widget") (js "DRF9-ESD6-BLG7") emptyWorld))
    !! "skuHistory"%string
  = Some (js "[{" ++ quoted (js "title") ++ js ":" ++ quoted (js "Widget")
          ++ js "," ++ quoted (js "sku") ++ js ":" ++ quoted (js "DRF9-ESD6-BLG7")
          ++ js "," ++ quoted (js "timestamp") ++ js ":"
          ++ quoted (js "2024-01-01T00:00:00.000Z") ++ js "}]").
Proof.
  rewrite (saveToHistory_entries _ _ emptyWorld [])
    by (apply storedHistory_absent; apply lookup_empty).
  cbn [snd gm_storage]. rewrite lookup_insert_eq. f_equal.
Qed.

(** A stored history need not be in the form [JSON.stringify] writes: white
    space and escapes are read as [JSON.parse] reads them. *)
Example storedHistory_hand_written :
  storedHistory
    (mkWorld {[ "skuHistory"%string :=
                js " [ { " ++ quoted (js "title") ++ js " : "
                ++ quoted (js "Vase") ++ js " , " ++ quoted (js "sku")
                ++ js ":" ++ quoted (js "AAAA-BBBB-CCCC") ++ js ","
                ++ quoted (js "timestamp") ++ js ":"
                ++ quoted (js "2023-12-31T23:59:59.000Z") ++ js "} ] " ]}
             (js "2024-01-01T00:00:00.000Z"))
    [vaseEntry].
Proof.
  unfold storedHistory. cbn [gm_storage]. rewrite lookup_singleton_eq.
  vm_compute. reflexivity.
Qed.

Lemma take_app_take {A} (l k : list A) n :
  take n (l ++ take n k) = take n (l ++ k).
Proof.
  rewrite !take_app, take_take. do 2 f_equal. lia.
Qed.

(** Over a run of calls the storage holds the most recent entries, newest
    first, at most 100 of them. *)
Lemma saveAll_history calls : ∀ w h,
  (length h ≤ 100)%nat →
  storedHistory w h →
  storedHistory (saveAll calls w) (take 100 (rev calls ++ h)).
Proof.
  induction calls as [|c calls IH]; intros w h Hlen Hh.
  - cbn [saveAll rev app]. by rewrite take_ge.
  - cbn [saveAll rev]. rewrite <- app_assoc. cbn [app].
    set (w1 := mkWorld (gm_storage w) (entry_timestamp c)).
    assert (H1 : storedHistory w1 h) by exact Hh.
    rewrite (saveToHistory_entries _ _ w1 h H1). cbn [snd].
    rewrite <- take_app_take. apply IH.
    + rewrite length_take. lia.
    + apply storedHistory_stringify. cbn [gm_storage clock_iso w1].
      rewrite lookup_insert_eq. by destruct c.
Qed.

(** From an empty storage: after the calls, the last 100 at most. *)
Lemma saveAll_from_empty calls :
  storedHistory (saveAll calls emptyWorld) (take 100 (rev calls)).
Proof.
  rewrite <- (app_nil_r (rev calls)).
  apply saveAll_history; [cbn; lia|]. by apply storedHistory_absent.
Qed.

End History.

(** ** Page detection *)

Section PageDetection.

Lemma startsWith_spec s p : startsWith s p = true ↔ ∃ post, s = p ++ post.
Proof.
  revert s. induction p as [|a p IH]; intros s.
  - split; [intros _; by exists s|]. intros _. by destruct s.
  - destruct s as [|b s]; cbn [startsWith].
    + split; [done|]. intros [post H]. discriminate.
    + rewrite andb_true_iff, N.eqb_eq, IH. split.
      * intros [-> [post ->]]. by exists post.
      * intros [post [= -> ->]]. split; [done|]. by exists post.
Qed.

(** [includes] is true exactly when the text occurs somewhere. *)
Lemma String_includes_spec s sub :
  String_includes s sub = true ↔ ∃ pre post, s = pre ++ sub ++ post.
Proof.
  induction s as [|c s IH]; cbn [String_includes];
    rewrite orb_true_iff, startsWith_spec.
  - split.
    + intros [[post H]|H]; [|done]. by exists [], post.
    + intros (pre & post & H). left.
      destruct pre; [by exists post|discriminate].
  - rewrite IH. split.
    + intros [[post H]|(pre & post & H)].
      * by exists [], post.
      * exists (c :: pre), post. by rewrite H.
    + intros (pre & post & H). destruct pre as [|d pre].
      * left. by exists post.
      * right. injection H as -> ->. by exists pre, post.
Qed.

Lemma String_includes_trans a b c :
  String_includes a b = true → String_includes b c = true →
  String_includes a c = true.
Proof.
  rewrite !String_includes_spec.
  intros (p1 & q1 & ->) (p2 & q2 & ->).
  exists (p1 ++ p2), (q2 ++ q1). by rewrite <- !app_assoc.
Qed.

Lemma String_includes_false_trans a b c :
  String_includes a c = false → String_includes b c = true →
  String_includes a b = false.
Proof.
  intros Hac Hbc. destruct (String_includes a b) eqn:Hab; [|done].
  by rewrite (String_includes_trans a b c Hab Hbc) in Hac.
Qed.

(** [split] gives one piece more than there are separators. *)
Lemma String_split_length sep s :
  length (String_split sep s) = S (length (filter (fun c => c = sep) s)).
Proof.
  induction s as [|c s IH]; [done|]. cbn [String_split].
  destruct (c =? sep) eqn:E.
  - apply N.eqb_eq in E. rewrite filter_cons_True by done.
    cbn [length]. by rewrite IH.
  - apply N.eqb_neq in E. rewrite filter_cons_False by done.
    destruct (String_split sep s) as [|piece more]; [discriminate|].
    cbn [length] in *. done.
Qed.

(** A path that holds the products prefix splits into five pieces at least. *)
Lemma products_path_pieces path :
  String_includes path (js "/store/blenko-glass/products/") = true →
  (5 ≤ length (String_split (chr "/") path))%nat.
Proof.
  intros (pre & post & ->)%String_includes_spec.
  rewrite String_split_length, !filter_app, !length_app.
  assert (H : length (filter (fun c => c = chr "/")
                        (js "/store/blenko-glass/products/")) = 4%nat)
    by reflexivity.
  rewrite H. lia.
Qed.

(** X1: the last test of [isExistingProductPage], at least five pieces of the
    path between slashes, never decides: a path that holds
    "/store/blenko-glass/products/" always has them. The page is an existing
    product page exactly when the path holds that prefix and none of "/new",
    "/inventory", "/metafields", "/variants/". *)
Theorem isExistingProductPage_tests (loc : Location) :
  isExistingProductPage loc
  = String_includes (pathname loc) (js "/store/blenko-glass/products/")
    && negb (String_includes (pathname loc) (js "/new"))
    && negb (String_includes (pathname loc) (js "/inventory"))
    && negb (String_includes (pathname loc) (js "/metafields"))
    && negb (String_includes (pathname loc) (js "/variants/")).
Proof.
  unfold isExistingProductPage. cbv zeta.
  destruct (String_includes (pathname loc) (js "/store/blenko-glass/products/"))
    eqn:Hp; [|reflexivity].
  apply products_path_pieces in Hp.
  replace (5 <=? length (String_split (chr "/") (pathname loc)))%nat with true
    by (symmetry; by apply Nat.leb_le).
  by rewrite andb_true_r.
Qed.

Lemma pathInHref_includes loc sub :
  pathInHref loc → String_includes (pathname loc) sub = true →
  String_includes (href loc) sub = true.
Proof.
  intros (origin & rest & Hhref) Hsub.
  apply (String_includes_trans _ (pathname loc)); [|done].
  apply String_includes_spec. by exists origin, rest.
Qed.

(** X2: an existing product page is always a page of the Blenko store and a
    product page, the path being part of the URL. *)
Theorem isExistingProductPage_in_store (loc : Location) :
  pathInHref loc →
  isExistingProductPage loc = true →
  isCorrectStore loc = true ∧ isProductPage loc = true.
Proof.
  intros Hloc Hex. split.
  - pose proof Hex as Hp. unfold isExistingProductPage in Hp. cbv zeta in Hp.
    repeat (apply andb_true_iff in Hp as [Hp _]).
    rename Hp into Hprefix.
    apply (pathInHref_includes loc) in Hprefix; [|done].
    unfold isCorrectStore.
    apply (String_includes_trans _ _ _ Hprefix). reflexivity.
  - unfold isProductPage. by rewrite Hex, orb_true_r.
Qed.

Lemma isExistingProductPage_in_store_witness :
  let loc :=
    mkLocation
      (js "https://admin.shopify.com/store/blenko-glass/products/8123456?tab=1")
      (js "/store/blenko-glass/products/8123456") in
  pathInHref loc
  ∧ isExistingProductPage loc = true
  ∧ isCorrectStore loc = true ∧ isProductPage loc = true.
Proof.
  cbv zeta.
  assert (H1 : pathInHref (mkLocation
      (js "https://admin.shopify.com/store/blenko-glass/products/8123456?tab=1")
      (js "/store/blenko-glass/products/8123456"))).
  { by exists (js "https://admin.shopify.com"), (js "?tab=1"). }
  assert (H2 : isExistingProductPage (mkLocation
      (js "https://admin.shopify.com/store/blenko-glass/products/8123456?tab=1")
      (js "/store/blenko-glass/products/8123456")) = true) by reflexivity.
  split; [exact H1|]. split; [exact H2|].
  exact (isExistingProductPage_in_store _ H1 H2).
Defined.

(** X3: when the path itself holds "/products/new", the page is a new product
    page and not an existing one. *)
Theorem new_product_path (loc : Location) :
  pathInHref loc →
  String_includes (pathname loc) (js "/products/new") = true →
  isNewProductPage loc = true ∧ isExistingProductPage loc = false.
Proof.
  intros Hloc Hnew. split.
  - unfold isNewProductPage. by apply pathInHref_includes.
  - unfold isExistingProductPage. cbv zeta.
    assert (H : String_includes (pathname loc) (js "/new") = true).
    { apply (String_includes_trans _ _ _ Hnew). reflexivity. }
    rewrite H. cbn [negb]. by rewrite andb_false_r.
Qed.

Lemma new_product_path_witness :
  let loc :=
    mkLocation (js "https://admin.shopify.com/store/blenko-glass/products/new")
               (js "/store/blenko-glass/products/new") in
  pathInHref loc
  ∧ String_includes (pathname loc) (js "/products/new") = true
  ∧ isNewProductPage loc = true ∧ isExistingProductPage loc = false.
Proof.
  cbv zeta.
  assert (H1 : pathInHref (mkLocation
      (js "https://admin.shopify.com/store/blenko-glass/products/new")
      (js "/store/blenko-glass/products/new"))).
  { by exists (js "https://admin.shopify.com"), []. }
  assert (H2 : String_includes (js "/store/blenko-glass/products/new")
                 (js "/products/new") = true) by reflexivity.
  split; [exact H1|]. split; [exact H2|].
  exact (new_product_path _ H1 H2).
Defined.

(** X4: [isNewProductPage] reads the whole URL, [isExistingProductPage] the
    path alone: text after the path (a query, a fragment) that holds
    "/products/new" makes an existing product page a new product page as
    well, so the two are not exclusive. *)
Theorem new_and_existing_overlap (loc : Location) (extra : JsString) :
  isExistingProductPage loc = true →
  String_includes extra (js "/products/new") = true →
  let loc' := mkLocation (href loc ++ extra) (pathname loc) in
  isNewProductPage loc' = true
  ∧ isExistingProductPage loc' = true
  ∧ (pathInHref loc → pathInHref loc').
Proof.
  intros Hex Hextra loc'. split; [|split].
  - unfold isNewProductPage, loc'. cbn [href].
    apply (String_includes_trans _ extra); [|done].
    apply String_includes_spec. exists (href loc), []. by rewrite app_nil_r.
  - exact Hex.
  - intros (origin & rest & Hhref). exists origin, (rest ++ extra).
    unfold loc'. cbn [href pathname]. rewrite Hhref. by rewrite <- !app_assoc.
Qed.

Lemma new_and_existing_overlap_witness :
  let loc :=
    mkLocation (js "https://admin.shopify.com/store/blenko-glass/products/8123456")
               (js "/store/blenko-glass/products/8123456") in
  let extra := js "?from=/products/new" in
  isExistingProductPage loc = true
  ∧ String_includes extra (js "/products/new") = true
  ∧ let loc' := mkLocation (href loc ++ extra) (pathname loc) in
    isNewProductPage loc' = true
    ∧ isExistingProductPage loc' = true
    ∧ (pathInHref loc → pathInHref loc').
Proof.
  cbv zeta.
  assert (H1 : isExistingProductPage (mkLocation
      (js "https://admin.shopify.com/store/blenko-glass/products/8123456")
      (js "/store/blenko-glass/products/8123456")) = true) by reflexivity.
  assert (H2 : String_includes (js "?from=/products/new")
                 (js "/products/new") = true) by reflexivity.
  split; [exact H1|]. split; [exact H2|].
  exact (new_and_existing_overlap _ _ H1 H2).
Defined.

End PageDetection.

(** ** The sampling loop on any byte array *)

Section LoopBounds.

Lemma spec_emit_length bytes : ∀ out,
  (length out ≤ 12)%nat →
  length (spec_emit bytes out) = Nat.min 12 (length out + 2 * length bytes).
Proof.
  induction bytes as [|byte rest IH]; intros out Hout.
  - cbn [spec_emit length]. lia.
  - cbn [spec_emit].
    destruct (length out <? 12)%nat eqn:Hlt.
    + apply Nat.ltb_lt in Hlt.
      set (out1 := out ++ [symbol ((byte / 36) mod 36)]).
      assert (Hlen1 : length out1 = S (length out))
        by (unfold out1; rewrite length_app; cbn [length]; lia).
      destruct (length out1 <? 12)%nat eqn:Hlt1.
      * apply Nat.ltb_lt in Hlt1. rewrite IH.
        -- rewrite length_app. cbn [length]. lia.
        -- rewrite length_app. cbn [length]. lia.
      * apply Nat.ltb_ge in Hlt1. rewrite IH by lia. cbn [length]. lia.
    + apply Nat.ltb_ge in Hlt. cbn [length]. lia.
Qed.

(** X5: whatever byte array the loop is given, the result array keeps its 12
    slots, the loop stops at index min(12, 2 n) for n bytes, and the joined
    string has that many characters; with fewer than 6 bytes it is shorter
    than 12 and [formatSKU] returns it without dashes. *)
Theorem sample_bounds (hashArray : list N) :
  length (sample hashArray) = 12%nat
  ∧ fst (sample_loop hashArray 0 (replicate SKU_LENGTH None))
    = Nat.min 12 (2 * length hashArray)
  ∧ length (join (sample hashArray)) = Nat.min 12 (2 * length hashArray)
  ∧ ((length hashArray < 6)%nat →
       formatSKU (replace_O (join (sample hashArray)))
       = replace_O (join (sample hashArray))).
Proof.
  assert (Hloop : sample_loop hashArray 0 (replicate SKU_LENGTH None)
                  = (length (spec_emit hashArray []),
                     filled (spec_emit hashArray []))).
  { change (replicate SKU_LENGTH None) with (filled []).
    change 0%nat with (length (@nil N)).
    apply sample_loop_spec. cbn; lia. }
  pose proof (spec_emit_length hashArray []) as Hlen.
  cbn [length Nat.add] in Hlen. specialize (Hlen ltac:(lia)).
  assert (Hjoin : length (join (sample hashArray))
                  = Nat.min 12 (2 * length hashArray))
    by (by rewrite sample_spec).
  split; [|split; [|split]].
  - unfold sample. rewrite Hloop. cbn [snd]. unfold filled.
    rewrite length_app, length_map, length_replicate.
    change SKU_LENGTH with 12%nat. lia.
  - rewrite Hloop. cbn [fst]. exact Hlen.
  - exact Hjoin.
  - intros Hshort. unfold formatSKU.
    rewrite replace_O_length, Hjoin.
    replace (Nat.min 12 (2 * length hashArray) =? SKU_LENGTH)%nat with false;
      [reflexivity|].
    symmetry. apply Nat.eqb_neq. change SKU_LENGTH with 12%nat. lia.
Qed.

Lemma sample_bounds_witness :
  (length [202; 151; 129] < 6)%nat
  ∧ formatSKU (replace_O (join (sample [202; 151; 129]))) = js "FWEHDV".
Proof.
  split; [cbn; lia|].
  rewrite (proj2 (proj2 (proj2 (sample_bounds [202; 151; 129]))))
    by (cbn; lia).
  reflexivity.
Defined.

End LoopBounds.

(** ** Which titles share a SKU *)

Section Collisions.

Lemma formatSKU_printed b0 b1 b2 b3 b4 b5 :
  formatSKU (replace_O (emitted b0 ++ emitted b1 ++ emitted b2 ++ emitted b3
                        ++ emitted b4 ++ emitted b5))
  = [ printed ((b0 / 36) mod 36); printed (b0 mod 36);
      printed ((b1 / 36) mod 36); printed (b1 mod 36);
      chr "-";
      printed ((b2 / 36) mod 36); printed (b2 mod 36);
      printed ((b3 / 36) mod 36); printed (b3 mod 36);
      chr "-";
      printed ((b4 / 36) mod 36); printed (b4 mod 36);
      printed ((b5 / 36) mod 36); printed (b5 mod 36) ].
Proof. reflexivity. Qed.

(** Two indices print alike only when equal, or when they are 14 and 26. *)
Lemma printed_eq i j :
  i < 36 → j < 36 → printed i = printed j →
  i = j ∨ (i = 14 ∧ j = 26) ∨ (i = 26 ∧ j = 14).
Proof.
  intros Hi Hj Heq.
  pose (P := fun i : N =>
    forallb (fun j : N =>
      implb (printed i =? printed j)
            ((i =? j) || ((i =? 14) && (j =? 26)) || ((i =? 26) && (j =? 14))))
      (map N.of_nat (seq 0 36))).
  assert (HP : P i = true).
  { revert i Hi Heq. intros i Hi _. revert i Hi.
    apply (forall_below P 36). vm_compute. reflexivity. }
  unfold P in HP. rewrite forallb_forall in HP.
  assert (Hin : In j (map N.of_nat (seq 0 36))).
  { apply in_map_iff. exists (N.to_nat j). split; [lia|]. apply in_seq. lia. }
  specialize (HP j Hin). apply N.eqb_eq in Heq. rewrite Heq in HP.
  cbn [implb] in HP.
  rewrite !orb_true_iff, !andb_true_iff, !N.eqb_eq in HP. tauto.
Qed.

(** The two characters of a byte are those of another byte exactly when the
    bytes are the same or an O/0 pair. *)
Lemma printed_pair b b' :
  b < 256 → b' < 256 →
  (printed ((b / 36) mod 36) = printed ((b' / 36) mod 36)
   ∧ printed (b mod 36) = printed (b' mod 36))
  ↔ sameSkuPair b b'.
Proof.
  intros Hb Hb'.
  destruct (byte_div_36 b Hb) as [Hq Hqm].
  destruct (byte_div_36 b' Hb') as [Hq' Hqm'].
  rewrite Hqm, Hqm'.
  pose proof (mod_36_lt b) as Hm. pose proof (mod_36_lt b') as Hm'.
  pose proof (N.div_mod' b 36) as Hdm. pose proof (N.div_mod' b' 36) as Hdm'.
  split.
  - intros [H1 H2].
    apply printed_eq in H1; [|lia|lia]. apply printed_eq in H2; [|done|done].
    assert (Hqq : b / 36 = b' / 36) by lia.
    destruct H2 as [H2|H2]; [left; lia|right; split; [done|tauto]].
  - intros [->|[Hqq H]]; [done|]. rewrite Hqq. split; [done|].
    destruct H as [[-> ->]|[-> ->]]; reflexivity.
Qed.

(** X6: two titles that are not blank get the same SKU exactly when the
    first six bytes of their digests agree pairwise, each pair being the same
    byte or an O/0 pair (equal quotients by 36, remainders 14 and 26): the SKU
    shows those six bytes up to that confusion and nothing else of the
    title. *)
Theorem generateSKU_same_iff (t1 t2 : JsString) (w : World) :
  trim t1 ≠ [] → trim t2 ≠ [] →
  generateSKU (JString t1) w = generateSKU (JString t2) w
  ↔ Forall2 sameSkuPair
      (take 6 (SHA256.digest (TextEncoder_encode (trim t1))))
      (take 6 (SHA256.digest (TextEncoder_encode (trim t2)))).
Proof.
  intros H1 H2. rewrite !generateSKU_string by done.
  destruct (sample_digest (TextEncoder_encode (trim t1)))
    as (b0 & b1 & b2 & b3 & b4 & b5 & rest & Hd & Hb & Hs).
  destruct (sample_digest (TextEncoder_encode (trim t2)))
    as (c0 & c1 & c2 & c3 & c4 & c5 & rest' & Hd' & Hc & Hs').
  rewrite Hs, Hs', Hd, Hd', !formatSKU_printed. cbn [take].
  rewrite !Forall_cons in Hb. destruct Hb as (B0 & B1 & B2 & B3 & B4 & B5 & _).
  rewrite !Forall_cons in Hc. destruct Hc as (C0 & C1 & C2 & C3 & C4 & C5 & _).
  pose proof (printed_pair b0 c0 B0 C0) as P0.
  pose proof (printed_pair b1 c1 B1 C1) as P1.
  pose proof (printed_pair b2 c2 B2 C2) as P2.
  pose proof (printed_pair b3 c3 B3 C3) as P3.
  pose proof (printed_pair b4 c4 B4 C4) as P4.
  pose proof (printed_pair b5 c5 B5 C5) as P5.
  split.
  - intros [= E0 E0' E1 E1' E2 E2' E3 E3' E4 E4' E5 E5'].
    constructor; [by apply P0|]. constructor; [by apply P1|].
    constructor; [by apply P2|]. constructor; [by apply P3|].
    constructor; [by apply P4|]. constructor; [by apply P5|].
    constructor.
  - intros HF.
    apply Forall2_cons in HF as [F0 HF]. apply Forall2_cons in HF as [F1 HF].
    apply Forall2_cons in HF as [F2 HF]. apply Forall2_cons in HF as [F3 HF].
    apply Forall2_cons in HF as [F4 HF]. apply Forall2_cons in HF as [F5 _].
    apply P0 in F0 as [-> ->]. apply P1 in F1 as [-> ->].
    apply P2 in F2 as [-> ->]. apply P3 in F3 as [-> ->].
    apply P4 in F4 as [-> ->]. apply P5 in F5 as [-> ->].
    reflexivity.
Qed.

Lemma generateSKU_same_iff_witness :
  trim (js "a") ≠ [] ∧ trim (js "  a ") ≠ []
  ∧ (generateSKU (JString (js "a")) emptyWorld
     = generateSKU (JString (js "  a ")) emptyWorld
     ↔ Forall2 sameSkuPair
         (take 6 (SHA256.digest (TextEncoder_encode (trim (js "a")))))
         (take 6 (SHA256.digest (TextEncoder_encode (trim (js "  a ")))))).
Proof.
  assert (H1 : trim (js "a") ≠ []) by (vm_compute; discriminate).
  assert (H2 : trim (js "  a ") ≠ []) by (vm_compute; discriminate).
  split; [exact H1|]. split; [exact H2|].
  exact (generateSKU_same_iff (js "a") (js "  a ") emptyWorld H1 H2).
Defined.

End Collisions.

(** ** [formatSKU] as an operation on strings *)

Section Format.

Lemma formatSKU_twelve_length sku :
  length sku = 12%nat → length (formatSKU sku) = 14%nat.
Proof.
  intros Hlen.
  do 12 (destruct sku as [|? sku]; try discriminate).
  destruct sku; [reflexivity|discriminate].
Qed.

Lemma formatSKU_other sku : length sku ≠ 12%nat → formatSKU sku = sku.
Proof.
  intros Hlen. unfold formatSKU.
  destruct (length sku =? SKU_LENGTH)%nat eqn:E; [|done].
  by apply Nat.eqb_eq in E.
Qed.

(** X7: formatting twice is formatting once: a formatted SKU has 14
    characters and any string that has not 12 is left as it is. *)
Theorem formatSKU_idempotent (sku : JsString) :
  formatSKU (formatSKU sku) = formatSKU sku.
Proof.
  destruct (decide (length sku = 12%nat)) as [Hlen|Hlen].
  - apply formatSKU_other. rewrite (formatSKU_twelve_length sku Hlen). lia.
  - by rewrite !(formatSKU_other sku Hlen).
Qed.

(** X8: on 12-character strings [formatSKU] loses nothing: two of them
    formatted alike are the same string. Over all strings it is not
    injective: a 12-character string and its own formatted form give the same
    result. *)
Theorem formatSKU_injective (a b : JsString) :
  length a = 12%nat → length b = 12%nat →
  formatSKU a = formatSKU b → a = b.
Proof.
  intros Ha Hb.
  do 12 (destruct a as [|? a]; try discriminate).
  destruct a; [|discriminate].
  do 12 (destruct b as [|? b]; try discriminate).
  destruct b; [|discriminate].
  intros [= -> -> -> -> -> -> -> -> -> -> -> ->]. reflexivity.
Qed.

Lemma formatSKU_injective_witness :
  length (js "ABCDEFGHIJKL") = 12%nat
  ∧ length (js "ABCDEFGHIJKL") = 12%nat
  ∧ (formatSKU (js "ABCDEFGHIJKL") = formatSKU (js "ABCDEFGHIJKL") →
     js "ABCDEFGHIJKL" = js "ABCDEFGHIJKL")
  ∧ formatSKU (js "ABCDEFGHIJKL") = formatSKU (js "ABCD-EFGH-IJKL").
Proof.
  split; [reflexivity|]. split; [reflexivity|].
  split; [|reflexivity].
  exact (formatSKU_injective (js "ABCDEFGHIJKL") (js "ABCDEFGHIJKL")
           eq_refl eq_refl).
Defined.

End Format.

(** ** When [saveToHistory] fails, and what a run of calls stores *)

Section HistoryRuns.

(** X9: [saveToHistory] returns normally exactly when the stored text (or
    the default "[]") is the JSON text of an array. On text that is not JSON
    it throws a SyntaxError, on JSON that is not an array a TypeError; either
    way the storage and the clock are as before and the entry is lost. *)
Theorem saveToHistory_outcome (title sku : JsString) (w : World) :
  let stored := default (js "[]") (gm_storage w !! "skuHistory"%string) in
  (fst (saveToHistory title sku w) = Returned tt
   ↔ ∃ elements, JSON_parse_text stored = Some (JsonArray elements))
  ∧ (JSON_parse_text stored = None →
       saveToHistory title sku w = (Thrown SyntaxError, w))
  ∧ (∀ v, JSON_parse_text stored = Some v →
       (∀ elements, v ≠ JsonArray elements) →
       saveToHistory title sku w = (Thrown TypeError, w)).
Proof.
  intros stored. split; [|split].
  - destruct (JSON_parse_text stored) as [v|] eqn:Hparse.
    + assert (Hcases : (∃ elements, v = JsonArray elements)
                       ∨ (∀ elements, v ≠ JsonArray elements)).
      { destruct v; try (right; intros l; discriminate). left. by eexists. }
      destruct Hcases as [[l ->]|Hv].
      * rewrite (saveToHistory_array _ _ _ l Hparse). split; [by eexists|done].
      * rewrite (saveToHistory_not_array _ _ _ v Hparse Hv).
        split; [done|]. intros [l [= ->]]. by destruct (Hv l).
    + rewrite (saveToHistory_malformed _ _ _ Hparse).
      split; [done|]. by intros [l H].
  - apply saveToHistory_malformed.
  - intros v Hparse Hv. by apply (saveToHistory_not_array _ _ _ v).
Qed.

Lemma saveToHistory_outcome_witness :
  saveToHistory (js "Widget") (js "DRF9-ESD6-BLG7")
    (mkWorld {[ "skuHistory"%string := js "oops" ]} (js "2024-01-01T00:00:00.000Z"))
  = (Thrown SyntaxError,
     mkWorld {[ "skuHistory"%string := js "oops" ]} (js "2024-01-01T00:00:00.000Z"))
  ∧ saveToHistory (js "Widget") (js "DRF9-ESD6-BLG7")
      (mkWorld {[ "skuHistory"%string := js "{}" ]} (js "2024-01-01T00:00:00.000Z"))
    = (Thrown TypeError,
       mkWorld {[ "skuHistory"%string := js "{}" ]} (js "2024-01-01T00:00:00.000Z")).
Proof.
  split.
  - apply (proj1 (proj2 (saveToHistory_outcome (js "Widget") (js "DRF9-ESD6-BLG7")
      (mkWorld {[ "skuHistory"%string := js "oops" ]}
               (js "2024-01-01T00:00:00.000Z"))))).
    cbn [gm_storage]. rewrite lookup_singleton_eq. reflexivity.
  - apply (proj2 (proj2 (saveToHistory_outcome (js "Widget") (js "DRF9-ESD6-BLG7")
      (mkWorld {[ "skuHistory"%string := js "{}" ]}
               (js "2024-01-01T00:00:00.000Z")))) (JsonObject [])).
    + cbn [gm_storage]. rewrite lookup_singleton_eq. reflexivity.
    + intros elements. discriminate.
Defined.

(** After a run that is not empty the stored text is the one
    [JSON.stringify] writes for the history kept. *)
Lemma saveAll_text calls : ∀ w h,
  calls ≠ [] →
  (length h ≤ 100)%nat →
  storedHistory w h →
  gm_storage (saveAll calls w) !! "skuHistory"%string
  = Some (JSON_stringify (historyJson (take 100 (rev calls ++ h)))).
Proof.
  induction calls as [|c calls IH]; intros w h Hne Hlen Hh; [done|].
  cbn [saveAll rev]. rewrite <- app_assoc. cbn [app].
  set (w1 := mkWorld (gm_storage w) (entry_timestamp c)).
  assert (H1 : storedHistory w1 h) by exact Hh.
  rewrite (saveToHistory_entries _ _ w1 h H1). cbn [snd].
  assert (Hc : mkEntry (entry_title c) (entry_sku c) (clock_iso w1) = c)
    by (by destruct c).
  rewrite Hc.
  destruct calls as [|c' calls].
  - cbn [saveAll rev app gm_storage]. by rewrite lookup_insert_eq.
  - rewrite <- take_app_take. apply IH; [done| |].
    + rewrite length_take. lia.
    + apply storedHistory_stringify. cbn [gm_storage].
      by rewrite lookup_insert_eq.
Qed.

(** X10: over any run of calls, starting from a stored history of at most 100
    entries, the storage ends with the entries of the calls, newest first,
    followed by the old ones, cut after 100: read back with [JSON.parse], the
    stored array has, element by element, the "title", "sku" and "timestamp"
    of that list. So it never holds more than 100, and after 100 calls nothing
    of the old history is left. *)
Theorem saveToHistory_run (calls : list Entry) (w : World) (h : list Entry) :
  (length h ≤ 100)%nat →
  storedHistory w h →
  let kept := take 100 (rev calls ++ h) in
  storedHistory (saveAll calls w) kept
  ∧ readsBack (saveAll calls w) kept
  ∧ (calls ≠ [] →
       gm_storage (saveAll calls w) !! "skuHistory"%string
       = Some (JSON_stringify (historyJson kept)))
  ∧ (length kept ≤ 100)%nat
  ∧ ((100 ≤ length calls)%nat → kept = take 100 (rev calls)).
Proof.
  intros Hlen Hh kept.
  assert (Hstored : storedHistory (saveAll calls w) kept)
    by (by apply saveAll_history).
  split; [exact Hstored|]. split; [by apply storedHistory_readsBack|].
  split; [intros Hne; by apply saveAll_text|]. split.
  - unfold kept. rewrite length_take. lia.
  - intros Hcalls. unfold kept. rewrite take_app_le; [done|].
    rewrite length_rev. lia.
Qed.

Lemma saveToHistory_run_witness :
  (length (replicate 100 vaseEntry) ≤ 100)%nat
  ∧ storedHistory fullWorld (replicate 100 vaseEntry)
  ∧ let calls := [mkEntry (js "Widget") (js "DRF9-ESD6-BLG7")
                          (js "2024-01-02T00:00:00.000Z");
                  mkEntry (js "a") (js "FWEH-DVAS-FWA1")
                          (js "2024-01-03T00:00:00.000Z")] in
    let kept := take 100 (rev calls ++ replicate 100 vaseEntry) in
    storedHistory (saveAll calls fullWorld) kept
    ∧ readsBack (saveAll calls fullWorld) kept
    ∧ (calls ≠ [] →
         gm_storage (saveAll calls fullWorld) !! "skuHistory"%string
         = Some (JSON_stringify (historyJson kept)))
    ∧ (length kept ≤ 100)%nat
    ∧ ((100 ≤ length calls)%nat → kept = take 100 (rev calls)).
Proof.
  assert (H1 : (length (replicate 100 vaseEntry) ≤ 100)%nat)
    by (rewrite length_replicate; lia).
  assert (H2 : storedHistory fullWorld (replicate 100 vaseEntry)).
  { apply storedHistory_stringify. unfold fullWorld. cbn [gm_storage].
    apply lookup_singleton_eq. }
  split; [exact H1|]. split; [exact H2|].
  exact (saveToHistory_run _ fullWorld (replicate 100 vaseEntry) H1 H2).
Defined.

End HistoryRuns.

(** ** [generateAndSetSKU]: the SKU and the history together *)

Section GenerateAndSet.

Variable Element : Type.
Variable setReactValue : Element → JsString → M unit.
Variable flashBackground : Element → M unit.

(** Writing into the field and flashing it return normally and do not touch
    the userscript storage (the page's own scripts have no access to it). *)
Hypothesis setReactValue_storage : ∀ input value w,
  ∃ w', setReactValue input value w = (Returned tt, w')
        ∧ gm_storage w' = gm_storage w.
Hypothesis flashBackground_storage : ∀ input w,
  ∃ w', flashBackground input w = (Returned tt, w')
        ∧ gm_storage w' = gm_storage w.

Lemma storedHistory_storage w w' h :
  gm_storage w' = gm_storage w → storedHistory w h → storedHistory w' h.
Proof. unfold storedHistory. by intros ->. Qed.

(** X11: on a stored history, [generateAndSetSKU] of a title that is not
    blank returns the SKU [generateSKU] gives for it and stores one entry in
    front of the old ones: read back with [JSON.parse], the first element of
    the stored array has the title as it was passed as "title", that SKU as
    "sku" and the time of the save as "timestamp", and the rest are the old
    entries, cut after 100 in all; on a blank title it returns [null] and
    changes nothing. *)
Theorem generateAndSetSKU_saves (t : JsString) (input : Element) (w : World)
    (old : list Entry) :
  storedHistory w old →
  (trim t ≠ [] →
     ∃ sku w2 w',
       generateSKU (JString t) w = (Returned (Some sku), w)
       ∧ gm_storage w2 = gm_storage w
       ∧ generateAndSetSKU Element setReactValue flashBackground t input w
         = (Returned (Some sku), w')
       ∧ storedHistory w' (take 100 (mkEntry t sku (clock_iso w2) :: old))
       ∧ readsBack w' (take 100 (mkEntry t sku (clock_iso w2) :: old))
       ∧ (∃ text first rest,
            gm_storage w' !! "skuHistory"%string = Some text
            ∧ JSON_parse_text text = Some (JsonArray (first :: rest))
            ∧ stringField (js "title") first = Some t
            ∧ stringField (js "sku") first = Some sku
            ∧ stringField (js "timestamp") first = Some (clock_iso w2)
            ∧ map entryOf rest = map Some (take 99 old))
       ∧ clock_iso w' = clock_iso w2)
  ∧ (trim t = [] →
       generateAndSetSKU Element setReactValue flashBackground t input w
       = (Returned None, w)).
Proof.
  intros Hold. split.
  - intros Ht.
    destruct (sample_digest (TextEncoder_encode (trim t)))
      as (b0 & b1 & b2 & b3 & b4 & b5 & rest & _ & _ & Hs).
    pose proof (generateSKU_string t w Ht) as Hsku.
    rewrite Hs, formatSKU_emitted in Hsku. cbv zeta in Hsku.
    match type of Hsku with _ = (Returned (Some ?s), _) => set (sku := s) in * end.
    destruct (setReactValue_storage input sku w) as (w1 & Hset & Hst1).
    destruct (flashBackground_storage input w1) as (w2 & Hflash & Hst2).
    assert (Hold2 : storedHistory w2 old).
    { apply (storedHistory_storage w); [|done]. by rewrite Hst2. }
    exists sku, w2.
    eexists. split; [exact Hsku|]. split; [by rewrite Hst2|].
    unfold generateAndSetSKU, mbind, M_bind. rewrite Hsku.
    change (truthy (JString sku)) with true. cbv iota.
    cbv beta. rewrite Hset. cbv beta iota.
    rewrite Hflash. cbv beta iota.
    rewrite (saveToHistory_entries t sku w2 old Hold2). cbv beta iota.
    split; [reflexivity|].
    set (kept := take 100 (mkEntry t sku (clock_iso w2) :: old)).
    assert (Htext : gm_storage
      (mkWorld (<["skuHistory"%string := JSON_stringify (historyJson kept)]>
                (gm_storage w2)) (clock_iso w2)) !! "skuHistory"%string
      = Some (JSON_stringify (historyJson kept)))
      by (cbn [gm_storage]; by rewrite lookup_insert_eq).
    assert (Hstored := storedHistory_stringify _ _ Htext).
    split; [exact Hstored|]. split; [by apply storedHistory_readsBack|].
    split; [|reflexivity].
    exists (JSON_stringify (historyJson kept)),
      (entryJson (mkEntry t sku (clock_iso w2))), (map entryJson (take 99 old)).
    split; [exact Htext|].
    split; [apply JSON_parse_text_history|].
    split; [reflexivity|]. split; [reflexivity|]. split; [reflexivity|].
    apply entryOf_historyJson.
  - intros Ht. unfold generateAndSetSKU, mbind, M_bind.
    by rewrite (generateSKU_blank t w Ht).
Qed.

(** X12: when the stored text is not the JSON text of an array,
    [generateAndSetSKU] of a title that is not blank throws (a SyntaxError or
    a TypeError, from [saveToHistory]) after the field was written: no SKU is
    returned to the caller and the storage is as before. *)
Theorem generateAndSetSKU_history_unreadable (t : JsString) (input : Element)
    (w : World) :
  trim t ≠ [] →
  (∀ elements,
     JSON_parse_text (default (js "[]") (gm_storage w !! "skuHistory"%string))
     ≠ Some (JsonArray elements)) →
  ∃ e w2,
    generateAndSetSKU Element setReactValue flashBackground t input w
    = (Thrown e, w2)
    ∧ (e = SyntaxError ∨ e = TypeError)
    ∧ gm_storage w2 = gm_storage w.
Proof.
  intros Ht Hbad.
  destruct (sample_digest (TextEncoder_encode (trim t)))
    as (b0 & b1 & b2 & b3 & b4 & b5 & rest & _ & _ & Hs).
  pose proof (generateSKU_string t w Ht) as Hsku.
  rewrite Hs, formatSKU_emitted in Hsku. cbv zeta in Hsku.
  match type of Hsku with _ = (Returned (Some ?s), _) => set (sku := s) in * end.
  destruct (setReactValue_storage input sku w) as (w1 & Hset & Hst1).
  destruct (flashBackground_storage input w1) as (w2 & Hflash & Hst2).
  assert (Hst : gm_storage w2 = gm_storage w) by (by rewrite Hst2).
  assert (Hrun : ∀ r,
    saveToHistory t sku w2 = (Thrown r, w2) →
    generateAndSetSKU Element setReactValue flashBackground t input w
    = (Thrown r, w2)).
  { intros r Hsave. unfold generateAndSetSKU, mbind, M_bind. rewrite Hsku.
    change (truthy (JString sku)) with true. cbv iota.
    cbv beta. rewrite Hset. cbv beta iota.
    rewrite Hflash. cbv beta iota. rewrite Hsave. reflexivity. }
  rewrite <- Hst in Hbad.
  destruct (JSON_parse_text
              (default (js "[]") (gm_storage w2 !! "skuHistory"%string)))
    as [v|] eqn:Hparse.
  - exists TypeError, w2. split; [|split; [by right|done]].
    apply Hrun. apply (saveToHistory_not_array _ _ _ v Hparse).
    intros elements ->. by apply (Hbad elements).
  - exists SyntaxError, w2. split; [|split; [by left|done]].
    apply Hrun. by apply saveToHistory_malformed.
Qed.

End GenerateAndSet.

Lemma generateAndSetSKU_saves_witness :
  storedHistory emptyWorld []
  ∧ trim (js "Widget") ≠ []
  ∧ ∃ sku w2 w',
      generateSKU (JString (js "Widget")) emptyWorld
      = (Returned (Some sku), emptyWorld)
      ∧ gm_storage w2 = gm_storage emptyWorld
      ∧ generateAndSetSKU unit (fun _ _ => mret tt) (fun _ => mret tt)
          (js "Widget") tt emptyWorld
        = (Returned (Some sku), w')
      ∧ storedHistory w'
          (take 100 (mkEntry (js "Widget") sku (clock_iso w2) :: []))
      ∧ readsBack w'
          (take 100 (mkEntry (js "Widget") sku (clock_iso w2) :: []))
      ∧ (∃ text first rest,
           gm_storage w' !! "skuHistory"%string = Some text
           ∧ JSON_parse_text text = Some (JsonArray (first :: rest))
           ∧ stringField (js "title") first = Some (js "Widget")
           ∧ stringField (js "sku") first = Some sku
           ∧ stringField (js "timestamp") first = Some (clock_iso w2)
           ∧ map entryOf rest = map Some (take 99 []))
      ∧ clock_iso w' = clock_iso w2.
Proof.
  assert (H1 : storedHistory emptyWorld [])
    by (apply storedHistory_absent; apply lookup_empty).
  assert (H2 : trim (js "Widget") ≠ []) by (vm_compute; discriminate).
  split; [exact H1|]. split; [exact H2|].
  refine (proj1 (generateAndSetSKU_saves unit (fun _ _ => mret tt)
                   (fun _ => mret tt) _ _ (js "Widget") tt emptyWorld [] H1) H2).
  - intros input value w. exists w. split; reflexivity.
  - intros input w. exists w. split; reflexivity.
Defined.

Lemma generateAndSetSKU_history_unreadable_witness :
  let w := mkWorld {[ "skuHistory"%string := js "oops" ]}
                   (js "2024-01-01T00:00:00.000Z") in
  trim (js "Widget") ≠ []
  ∧ (∀ elements,
       JSON_parse_text (default (js "[]") (gm_storage w !! "skuHistory"%string))
       ≠ Some (JsonArray elements))
  ∧ ∃ e w2,
      generateAndSetSKU unit (fun _ _ => mret tt) (fun _ => mret tt)
        (js "Widget") tt w
      = (Thrown e, w2)
      ∧ (e = SyntaxError ∨ e = TypeError)
      ∧ gm_storage w2 = gm_storage w.
Proof.
  cbv zeta.
  assert (H1 : trim (js "Widget") ≠ []) by (vm_compute; discriminate).
  assert (H2 : ∀ elements,
    JSON_parse_text
      (default (js "[]")
         (gm_storage (mkWorld {[ "skuHistory"%string := js "oops" ]}
                              (js "2024-01-01T00:00:00.000Z"))
          !! "skuHistory"%string))
    ≠ Some (JsonArray elements)).
  { intros elements. cbn [gm_storage]. rewrite lookup_singleton_eq.
    discriminate. }
  split; [exact H1|]. split; [exact H2|].
  refine (generateAndSetSKU_history_unreadable unit (fun _ _ => mret tt)
            (fun _ => mret tt) _ _ (js "Widget") tt _ H1 H2).
  - intros input value w. exists w. split; reflexivity.
  - intros input w. exists w. split; reflexivity.
Defined.

(** ** Blank titles *)

Section Blank.

Lemma trimStart_nil_iff s :
  trimStart s = [] ↔ Forall (fun c => isWhiteSpace c = true) s.
Proof.
  induction s as [|c s IH]; [by split|]. cbn [trimStart].
  destruct (isWhiteSpace c) eqn:Hc.
  - rewrite IH. split; [by constructor|]. by intros [_ ?]%Forall_cons.
  - split; [done|]. intros [H _]%Forall_cons. congruence.
Qed.

Lemma trim_nil_iff s :
  trim s = [] ↔ Forall (fun c => isWhiteSpace c = true) s.
Proof.
  unfold trim, trimEnd. split.
  - intros H. apply (f_equal (@rev N)) in H.
    rewrite rev_involutive in H. cbn [rev] in H.
    apply trimStart_nil_iff, Forall_rev in H. rewrite rev_involutive in H.
    destruct (trimStart s) as [|c u] eqn:Hu; [by apply trimStart_nil_iff|].
    apply Forall_cons in H as [Hc _].
    assert (Hclean := trimStart_clean s c). rewrite Hu in Hclean.
    rewrite (Hclean eq_refl) in Hc. discriminate.
  - intros H. apply trimStart_nil_iff in H. by rewrite H.
Qed.

(** X13: on a string, [generateSKU] returns [null] exactly when every code
    unit of it is white space (the empty string included); one code unit that
    is not white space is enough for a SKU. *)
Theorem generateSKU_null_iff_blank (t : JsString) (w : World) :
  fst (generateSKU (JString t) w) = Returned None
  ↔ Forall (fun c => isWhiteSpace c = true) t.
Proof.
  rewrite <- trim_nil_iff.
  destruct (trim t) as [|c u] eqn:Htrim.
  - by rewrite generateSKU_blank.
  - rewrite generateSKU_string by (by rewrite Htrim). by split.
Qed.

End Blank.
